(** * Portfolio backend: the contact-form pipeline of [server.js]

    A shallow embedding of the Express server of the portfolio site
    (sanitizer, validation chains, spam filter, rate-limit configuration,
    transporter set-up, the [/api/health] and [/api/contact] handlers),
    followed by the properties proved about it.

    JavaScript strings are sequences of UTF-16 code units; a code unit is
    an [N].  Constant texts of the program (field names, messages, codes)
    are Rocq strings. *)

From Stdlib Require Import ZArith NArith Ascii String List Bool Lia DecimalString.
From stdpp Require Import gmap strings list.

Local Open Scope N_scope.

(* ------------------------------------------------------------------ *)
(** ** JavaScript strings and the built-ins the server calls *)
(* ------------------------------------------------------------------ *)

Module JS.

(** A string value: its UTF-16 code units, in order. *)
Definition jsstring : Type := list N.

(** An ASCII literal of the source as code units. *)
Definition lit (s : string) : jsstring :=
  map N_of_ascii (list_ascii_of_string s).

(** The values a handler can meet: [typeof] tells strings from the
    rest.  Numbers are kept as integers and objects as opaque
    references; nothing below looks inside them. *)
Inductive jsval : Type :=
| JUndefined
| JNull
| JBool (b : bool)
| JNum (z : Z)
| JStr (s : jsstring)
| JObj (ref : nat).

Definition typeof_string (v : jsval) : bool :=
  match v with JStr _ => true | _ => false end.

(** [v === 'literal'] *)
Definition strict_eq_lit (v : jsval) (s : string) : bool :=
  match v with
  | JStr u => bool_decide (u = lit s)
  | _ => false
  end.

(** ECMAScript WhiteSpace and LineTerminator code points: what
    [String.prototype.trim] strips and what [\s] matches. *)
Definition isWhiteSpace (c : N) : bool :=
  (9 <=? c) && (c <=? 13)
  || (c =? 32) || (c =? 160) || (c =? 5760)
  || (8192 <=? c) && (c <=? 8202)
  || (c =? 8232) || (c =? 8233) || (c =? 8239) || (c =? 8287)
  || (c =? 12288) || (c =? 65279).

Fixpoint trimStart (s : jsstring) : jsstring :=
  match s with
  | [] => []
  | c :: rest => if isWhiteSpace c then trimStart rest else s
  end.

Definition trimEnd (s : jsstring) : jsstring := rev (trimStart (rev s)).

(** [s.trim()] *)
Definition trim (s : jsstring) : jsstring := trimEnd (trimStart s).

(** [s.replace(/c/g, r)] for a pattern that is one literal character. *)
Definition replaceAll (c : N) (r : jsstring) (s : jsstring) : jsstring :=
  flat_map (fun x => if x =? c then r else [x]) s.

Fixpoint startsWith (s k : jsstring) {struct k} : bool :=
  match k, s with
  | [], _ => true
  | _ :: _, [] => false
  | a :: k', b :: s' => (a =? b) && startsWith s' k'
  end.

(** [s.includes(k)] *)
Fixpoint includes (s k : jsstring) : bool :=
  startsWith s k ||
  match s with
  | [] => false
  | _ :: s' => includes s' k
  end.

(** How often a code unit occurs in a string. *)
Definition countOf (c : N) (s : jsstring) : nat :=
  length (List.filter (N.eqb c) s).

(** [a || b] on strings that may be undefined: the empty string and
    [undefined] are falsy. *)
Definition or_else (a : option jsstring) (b : jsstring) : jsstring :=
  match a with
  | Some (c :: s) => c :: s
  | _ => b
  end.

(** [!v] for an environment entry: unset or empty. *)
Definition falsy (a : option jsstring) : bool :=
  match a with
  | Some (_ :: _) => false
  | _ => true
  end.

Definition asciiLower (c : N) : N :=
  if (65 <=? c) && (c <=? 90) then c + 32 else c.

Section ToLowerCase.
(** The lower-casing of a code unit outside ASCII is the engine's
    Unicode table; it is context dependent (final sigma) and may
    yield several units, so it sees the units before (nearest
    first) and after. *)
Variable unicodeLower : jsstring -> N -> jsstring -> jsstring.

Fixpoint toLowerCaseFrom (seen s : jsstring) : jsstring :=
  match s with
  | [] => []
  | c :: rest =>
      (if c <? 128 then [asciiLower c] else unicodeLower seen c rest)
        ++ toLowerCaseFrom (c :: seen) rest
  end.

(** [s.toLowerCase()] *)
Definition toLowerCase (s : jsstring) : jsstring := toLowerCaseFrom [] s.
End ToLowerCase.

(** *** parseInt *)

Definition digitValue (c : N) : option N :=
  if (48 <=? c) && (c <=? 57) then Some (c - 48)
  else if (97 <=? c) && (c <=? 122) then Some (c - 87)
  else if (65 <=? c) && (c <=? 90) then Some (c - 55)
  else None.

(** The longest prefix of radix-[r] digits, read as a number; [None]
    when that prefix is empty. *)
Fixpoint digitsFrom (r : N) (acc : option N) (s : jsstring) : option N :=
  match s with
  | [] => acc
  | c :: rest =>
      match digitValue c with
      | Some d =>
          if d <? r
          then digitsFrom r (Some (r * default 0 acc + d)) rest
          else acc
      | None => acc
      end
  end.

(** A Number that is not NaN, as far as [parseInt] can return one: a
    double whose value is an integer (both zeros are [Finite 0]), or
    an infinity. *)
Inductive number : Type :=
| Finite (z : Z)
| Infinity (negative : bool).

(** The Number for a mathematical integer: the nearest double, a tie
    going to the even significand of 53 bits; what rounds to 2^1024
    or beyond is an infinity. *)
Definition toNumber (z : Z) : number :=
  let a := Z.abs z in
  if (a <? 2 ^ 53)%Z then Finite z
  else
    let shift := (Z.log2 a - 52)%Z in
    let q := Z.shiftr a shift in
    let r := Z.land a (Z.ones shift) in
    let half := Z.shiftl 1 (shift - 1) in
    let q' :=
      if (half <? r)%Z || ((r =? half)%Z && Z.odd q) then (q + 1)%Z else q in
    let m := Z.shiftl q' shift in
    if (2 ^ 1024 <=? m)%Z then Infinity (z <? 0)%Z
    else Finite (if (z <? 0)%Z then (- m)%Z else m).

(** [parseInt(v)] with no radix argument; [None] is NaN.  The digits
    are read exactly and the result is the Number nearest to them
    (beyond 20 significant digits the standard also lets an engine
    read the further digits as zeros; the digits are taken as they
    are here). *)
Definition parseInt (v : option jsstring) : option number :=
  match v with
  | None => None
  | Some s =>
      let s := trimStart s in
      let '(neg, s) :=
        match s with
        | 45 :: s' => (true, s')
        | 43 :: s' => (false, s')
        | _ => (false, s)
        end in
      let '(r, s) :=
        match s with
        | 48 :: 120 :: s' => (16, s')
        | 48 :: 88 :: s' => (16, s')
        | _ => (10, s)
        end in
      match digitsFrom r None s with
      | None => None
      | Some n => Some (toNumber (if neg then (- Z.of_N n)%Z else Z.of_N n))
      end
  end.

(** [parseInt(v) || d]: NaN and zero are falsy. *)
Definition parseInt_or (v : option jsstring) (d : number) : number :=
  match parseInt v with
  | Some (Finite 0%Z) => d
  | Some n => n
  | None => d
  end.

End JS.

(* ------------------------------------------------------------------ *)
(** ** Regular expressions, as far as [isValidEmail] needs them *)
(* ------------------------------------------------------------------ *)

Module Regex.
Import JS.

(** Patterns over code units.  A character class is its membership
    test, so [[^\s@]] is a [Class]. *)
Inductive re : Type :=
| Void
| Eps
| Class (p : N -> bool)
| Cat (r1 r2 : re)
| Alt (r1 r2 : re)
| Star (r : re).

(** [r+] *)
Definition Plus (r : re) : re := Cat r (Star r).

(** A literal character. *)
Definition Chr (c : N) : re := Class (N.eqb c).

Fixpoint nullable (r : re) : bool :=
  match r with
  | Void => false
  | Eps => true
  | Class _ => false
  | Cat r1 r2 => nullable r1 && nullable r2
  | Alt r1 r2 => nullable r1 || nullable r2
  | Star _ => true
  end.

(** The pattern of what may follow [c]. *)
Fixpoint deriv (c : N) (r : re) : re :=
  match r with
  | Void => Void
  | Eps => Void
  | Class p => if p c then Eps else Void
  | Cat r1 r2 =>
      if nullable r1
      then Alt (Cat (deriv c r1) r2) (deriv c r2)
      else Cat (deriv c r1) r2
  | Alt r1 r2 => Alt (deriv c r1) (deriv c r2)
  | Star r1 => Cat (deriv c r1) (Star r1)
  end.

(** [/^r$/.test(s)]: the whole of [s] matches [r]. *)
Fixpoint test (r : re) (s : jsstring) : bool :=
  match s with
  | [] => nullable r
  | c :: rest => test (deriv c r) rest
  end.

(** The strings a pattern denotes. *)
Inductive Matches : re -> jsstring -> Prop :=
| MEps : Matches Eps []
| MClass p c : p c = true -> Matches (Class p) [c]
| MCat r1 r2 s1 s2 :
    Matches r1 s1 -> Matches r2 s2 -> Matches (Cat r1 r2) (s1 ++ s2)
| MAltL r1 r2 s : Matches r1 s -> Matches (Alt r1 r2) s
| MAltR r1 r2 s : Matches r2 s -> Matches (Alt r1 r2) s
| MStarNil r : Matches (Star r) []
| MStarCons r s1 s2 :
    Matches r s1 -> Matches (Star r) s2 -> Matches (Star r) (s1 ++ s2).

End Regex.

(* ------------------------------------------------------------------ *)
(** ** Helper functions of the server *)
(* ------------------------------------------------------------------ *)

Module Helpers.
Import JS Regex.

(** The four characters the sanitizer looks for. *)
Definition LT : N := 60.
Definition GT : N := 62.
Definition DQUOTE : N := 34.
Definition SQUOTE : N := 39.
Definition AT : N := 64.
Definition DOT : N := 46.

(** [sanitizeInput]: four global replacements, then [trim].  The
    replacement texts are those of the source: the first three put
    back the character they matched, the fourth writes the entity
    of the apostrophe. *)
Definition sanitizeString (input : jsstring) : jsstring :=
  trim
    (replaceAll SQUOTE (lit "&#x27;")
       (replaceAll DQUOTE [DQUOTE]
          (replaceAll GT (lit ">")
             (replaceAll LT (lit "<") input)))).

Definition sanitizeInput (input : jsval) : jsval :=
  match input with
  | JStr s => JStr (sanitizeString s)
  | other => other
  end.

(** [[^\s@]] *)
Definition notSpaceNorAt (c : N) : bool :=
  negb (isWhiteSpace c || (c =? AT)).

(** [/^[^\s@]+@[^\s@]+\.[^\s@]+$/] *)
Definition emailRegex : re :=
  Cat (Plus (Class notSpaceNorAt))
    (Cat (Chr AT)
       (Cat (Plus (Class notSpaceNorAt))
          (Cat (Chr DOT) (Plus (Class notSpaceNorAt))))).

Definition isValidEmail (email : jsstring) : bool := test emailRegex email.

End Helpers.

(* ------------------------------------------------------------------ *)
(** ** What the server takes from its libraries and its engine *)
(* ------------------------------------------------------------------ *)

Module Ext.
Import JS.

(** Functions of validator.js and of the JavaScript engine that the
    server calls and whose tables are not part of the repository.
    They are parameters of everything below. *)
Record Externals : Type := {
  (** validator.js [escape], behind the chains' [.escape()] *)
  escape : jsstring -> jsstring;
  (** validator.js [isEmail], behind [.isEmail()] *)
  isEmail : jsstring -> bool;
  (** validator.js [normalizeEmail], behind [.normalizeEmail()], with
      its result as the next validator reads it *)
  normalizeEmail : jsstring -> jsstring;
  (** the engine's lower-casing outside ASCII *)
  unicodeLower : jsstring -> N -> jsstring -> jsstring
}.

End Ext.

(* ------------------------------------------------------------------ *)
(** ** The validation chains of [POST /api/contact] *)
(* ------------------------------------------------------------------ *)

Module Validator.
Import JS Ext.

(** One entry of [errors.array()], as the handler maps it:
    [{ field: err.path, message: err.msg }]. *)
Record FieldError : Type := {
  field : string;
  message : string
}.

(** The request body: each property a string or undefined. *)
Record Body : Type := {
  name : option jsstring;
  email : option jsstring;
  subject : option jsstring;
  msg : option jsstring
}.

(** An item of a chain: a sanitizer rewrites the value, a validator
    tests it and carries the text of its [.withMessage]. *)
Inductive item : Type :=
| Sanitizer (f : jsstring -> jsstring)
| Check (p : jsstring -> bool) (text : string).

Record Chain : Type := {
  path : string;
  optional : bool;
  stack : list item
}.

Definition isHighSurrogate (c : N) : bool := (55296 <=? c) && (c <=? 56319).
Definition isLowSurrogate (c : N) : bool := (56320 <=? c) && (c <=? 57343).

(** The matches of [/[\uD800-\uDBFF][\uDC00-\uDFFF]/g]. *)
Fixpoint surrogatePairs (s : jsstring) : nat :=
  match s with
  | hi :: (lo :: rest) as tl =>
      if isHighSurrogate hi && isLowSurrogate lo
      then S (surrogatePairs rest)
      else surrogatePairs tl
  | _ => 0%nat
  end.

(** Modelled from the spec: express-validator's [isLength] is not
    among the sources; the spec speaks of the length of the trimmed
    text.  The length is taken as validator.js documents it: code
    units, a surrogate pair counting once. *)
Definition strLength (s : jsstring) : N :=
  N.of_nat (length s - surrogatePairs s).

(** [.isLength({ min, max })]; an absent [min] is 0. *)
Definition isLength (min : N) (max : option N) (s : jsstring) : bool :=
  (min <=? strLength s)
  && match max with
     | Some m => strLength s <=? m
     | None => true
     end.

(** Modelled from the spec: express-validator's [.notEmpty()] is not
    among the sources; the spec gives name, email and message as
    required, taken as: the trimmed text is not the empty string. *)
Definition notEmpty (s : jsstring) : bool :=
  match s with [] => false | _ :: _ => true end.

(** What a validator adds to the errors for a value. *)
Definition report (p : string) (ok : jsstring -> bool) (text : string)
  (value : jsstring) : list FieldError :=
  if ok value then [] else [ {| field := p; message := text |} ].

(** Modelled from the spec: the chain runner of express-validator is
    not among the sources; the spec has the rules evaluated
    independently, not short-circuited, all violations collected.
    The items of a chain run in order on the value: a sanitizer
    rewrites it, every failing validator adds its error, and none
    stops the chain. *)
Fixpoint runStack (p : string) (items : list item) (value : jsstring)
  : jsstring * list FieldError :=
  match items with
  | [] => (value, [])
  | Sanitizer f :: rest => runStack p rest (f value)
  | Check ok text :: rest =>
      let '(v, errs) := runStack p rest value in
      (v, report p ok text value ++ errs)
  end.

(** A chain on a property of the body.  An undefined property is
    read as the empty string, unless the chain is optional: then
    nothing runs and the property stays undefined. *)
Definition runChain (c : Chain) (raw : option jsstring)
  : option jsstring * list FieldError :=
  match raw with
  | None =>
      if optional c then (None, [])
      else let '(v, errs) := runStack (path c) (stack c) [] in (Some v, errs)
  | Some s =>
      let '(v, errs) := runStack (path c) (stack c) s in (Some v, errs)
  end.

Section Chains.
Context (X : Externals).

Definition nameChain : Chain :=
  {| path := "name"; optional := false;
     stack :=
       [ Sanitizer trim;
         Check notEmpty "Name is required";
         Check (isLength 2 (Some 100))
           "Name must be between 2 and 100 characters";
         Sanitizer (escape X) ] |}.

Definition emailChain : Chain :=
  {| path := "email"; optional := false;
     stack :=
       [ Sanitizer trim;
         Check notEmpty "Email is required";
         Check (isEmail X) "Please provide a valid email address";
         Sanitizer (normalizeEmail X);
         Check (isLength 0 (Some 254)) "Email is too long" ] |}.

Definition subjectChain : Chain :=
  {| path := "subject"; optional := true;
     stack :=
       [ Sanitizer trim;
         Check (isLength 0 (Some 200))
           "Subject must be less than 200 characters";
         Sanitizer (escape X) ] |}.

Definition messageChain : Chain :=
  {| path := "message"; optional := false;
     stack :=
       [ Sanitizer trim;
         Check notEmpty "Message is required";
         Check (isLength 10 (Some 5000))
           "Message must be between 10 and 5000 characters";
         Sanitizer (escape X) ] |}.

(** The four chains in the order of the route; the result is the
    body as the chains leave it and [validationResult(req).array()]
    as the handler maps it. *)
Definition validate (b : Body) : Body * list FieldError :=
  let '(n, e1) := runChain nameChain (name b) in
  let '(e, e2) := runChain emailChain (email b) in
  let '(s, e3) := runChain subjectChain (subject b) in
  let '(m, e4) := runChain messageChain (msg b) in
  ({| name := n; email := e; subject := s; msg := m |},
   e1 ++ e2 ++ e3 ++ e4).

Definition validationErrors (b : Body) : list FieldError :=
  snd (validate b).
End Chains.

(** Modelled from the spec: validator.js's [isEmail], which the email
    chain calls, is not among the sources.  The spec gives the email
    rule as a simple "local@domain-with-dot" pattern; that is the
    pattern of the server's own [isValidEmail], which stands in for
    the library's check here. *)
Definition patternEmailCheck (X : Externals) : Externals :=
  {| escape := escape X;
     isEmail := Helpers.isValidEmail;
     normalizeEmail := normalizeEmail X;
     unicodeLower := unicodeLower X |}.

(** The errors that name a given field. *)
Definition errorsFor (f : string) (errs : list FieldError)
  : list FieldError :=
  List.filter (fun e => String.eqb (field e) f) errs.

(** Modelled from the spec: express-validator's [.trim()] is not among
    the sources; the spec has the fields trimmed, taken as the removal
    of leading and trailing white space, as [String.prototype.trim]
    does.  A property of the body as the chains read it: undefined is
    the empty string, and the text is trimmed first. *)
Definition trimmed (raw : option jsstring) : jsstring :=
  trim (default [] raw).

End Validator.

(* ------------------------------------------------------------------ *)
(** ** HTTP responses *)
(* ------------------------------------------------------------------ *)

Module Http.
Import JS Validator.

(** The JSON bodies the server writes. *)
Inductive Json : Type :=
| Failure (error : string) (code : string)
| ValidationFailure (error : string) (details : list FieldError)
    (code : string)
| ContactSuccess (message : string) (messageId : jsstring)
| Health (message : string) (timestamp : jsstring) (emailConfigured : bool).

Record Response : Type := {
  status : nat;
  json : Json
}.

(** The [success] property of a body. *)
Definition success (r : Response) : bool :=
  match json r with
  | Failure _ _ | ValidationFailure _ _ _ => false
  | ContactSuccess _ _ | Health _ _ _ => true
  end.

(** The [code] property of a body, when it has one. *)
Definition code (r : Response) : option string :=
  match json r with
  | Failure _ c | ValidationFailure _ _ c => Some c
  | ContactSuccess _ _ | Health _ _ _ => None
  end.

End Http.

(* ------------------------------------------------------------------ *)
(** ** Rate limiting *)
(* ------------------------------------------------------------------ *)

Module RateLimit.
Import JS Http.

(** The options the server passes to [rateLimit].  [skip] is the
    value given for the option of that name, when one is given: the
    source gives a boolean. *)
Record Options : Type := {
  windowMs : Z;
  max : number;
  message : Json;
  skip : option bool
}.

(** [k <= cap] *)
Definition atMost (k : nat) (cap : number) : bool :=
  match cap with
  | Finite m => (Z.of_nat k <=? m)%Z
  | Infinity negative => negb negative
  end.

(** Per-address state: a count of attempts and the start of the
    window. *)
Record RateWindow : Type := {
  count : nat;
  windowStart : Z
}.

Inductive Decision : Type := Allow | Deny.

(** Modelled from the spec: the limiter itself (express-rate-limit
    and its store) is not among the sources.  A window is created on
    the first attempt from an address, reset when the current time
    exceeds window start plus window duration, and its count is
    incremented otherwise; the attempt is denied when the count
    passes the cap. *)
Definition check (o : Options) (store : gmap (list N) RateWindow)
  (now : Z) (address : jsstring)
  : gmap (list N) RateWindow * Decision :=
  let w :=
    match store !! address with
    | Some w =>
        if (windowStart w + windowMs o <? now)%Z
        then {| count := 1; windowStart := now |}
        else {| count := S (count w); windowStart := windowStart w |}
    | None => {| count := 1; windowStart := now |}
    end in
  (<[address := w]> store,
   if atMost (count w) (max o) then Allow else Deny).

(** Modelled from the spec: on deny the caller surfaces HTTP status
    429 with the configured message; otherwise the request goes on
    ([None]). *)
Definition middleware (o : Options) (store : gmap (list N) RateWindow)
  (now : Z) (address : jsstring)
  : gmap (list N) RateWindow * option Response :=
  let '(store', d) := check o store now address in
  (store',
   match d with
   | Allow => None
   | Deny => Some {| status := 429; json := message o |}
   end).

(** How the limiter's layer of a route ends for a request: it
    answers itself, it lets the request go on, or it fails and the
    error goes to the error handler. *)
Inductive Passage : Type :=
| Denied (r : Response)
| Passed
| Threw.

(** The layer [rateLimit(options)] returns.  express-rate-limit is
    not among the sources; what is taken of it here is that the layer
    first calls the [skip] option on the request, as a function,
    before anything is counted.  Without the option every request is
    counted.  A boolean given as the option cannot be called: the
    call throws a TypeError, nothing is counted, and the error is
    handed on to the error handler. *)
Definition limiter (o : Options) (store : gmap (list N) RateWindow)
  (now : Z) (address : jsstring)
  : gmap (list N) RateWindow * Passage :=
  match skip o with
  | Some _ => (store, Threw)
  | None =>
      match middleware o store now address with
      | (store', Some r) => (store', Denied r)
      | (store', None) => (store', Passed)
      end
  end.

End RateLimit.

(* ------------------------------------------------------------------ *)
(** ** Configuration and the mail transporter *)
(* ------------------------------------------------------------------ *)

Module Config.
Import JS Http RateLimit.

(** [process.env], the entries the server reads. *)
Record Env : Type := {
  SMTP_HOST : option jsstring;
  SMTP_PORT : option jsstring;
  SMTP_SECURE : option jsstring;
  SMTP_USER : option jsstring;
  SMTP_PASS : option jsstring;
  CONTACT_EMAIL_env : option jsstring;
  RATE_LIMIT_MAX_env : option jsstring;
  NODE_ENV_env : option jsstring
}.

Definition NODE_ENV (env : Env) : jsstring :=
  or_else (NODE_ENV_env env) (lit "development").

Definition CONTACT_EMAIL (env : Env) : jsstring :=
  or_else (CONTACT_EMAIL_env env) (lit "pradnyadange07@gmail.com").

Definition RATE_LIMIT_MAX (env : Env) : number :=
  parseInt_or (RATE_LIMIT_MAX_env env) (Finite 5).

(** [contactLimiter]: the [skip] option is given, and both branches
    of the conditional that gives it are the boolean [false]. *)
Definition contactLimiter (env : Env) : Options :=
  {| windowMs := 15 * 60 * 1000;
     max := RATE_LIMIT_MAX env;
     message :=
       Failure "Too many contact attempts, please try again later."
         "RATE_LIMIT_EXCEEDED";
     skip :=
       Some (if bool_decide (NODE_ENV env = lit "development")
             then false else false) |}.

(** [apiLimiter]: no [skip] option. *)
Definition apiLimiter : Options :=
  {| windowMs := 15 * 60 * 1000;
     max := Finite 100;
     message :=
       Failure "Too many requests, please try again later."
         "RATE_LIMIT_EXCEEDED";
     skip := None |}.

(** The transport configuration handed to [nodemailer.createTransport];
    the transporter is identified with it. *)
Record Transporter : Type := {
  host : jsstring;
  port : number;
  secure : bool;
  auth_user : jsstring;
  auth_pass : jsstring;
  connectionTimeout : Z;
  socketTimeout : Z;
  service : option string
}.

Definition createTransporter (env : Env) : option Transporter :=
  if falsy (SMTP_HOST env) || falsy (SMTP_USER env) || falsy (SMTP_PASS env)
  then None
  else
    let h := default [] (SMTP_HOST env) in
    Some
      {| host := h;
         port := parseInt_or (SMTP_PORT env) (Finite 587);
         secure := bool_decide (SMTP_SECURE env = Some (lit "true"));
         auth_user := default [] (SMTP_USER env);
         auth_pass := default [] (SMTP_PASS env);
         connectionTimeout := 10000;
         socketTimeout := 10000;
         service :=
           if bool_decide (h = lit "smtp.gmail.com")
           then Some "gmail"%string else None |}.

End Config.

(* ------------------------------------------------------------------ *)
(** ** The two outbound messages *)
(* ------------------------------------------------------------------ *)

Module Mail.
Import JS Helpers Validator Config.

(** A property of the body as a value. *)
Definition toVal (o : option jsstring) : jsval :=
  match o with
  | Some s => JStr s
  | None => JUndefined
  end.

(** A value inside a template literal. *)
Definition interp (v : jsval) : jsstring :=
  match v with
  | JUndefined => lit "undefined"
  | JNull => lit "null"
  | JBool true => lit "true"
  | JBool false => lit "false"
  | JNum z => lit (NilZero.string_of_int (Z.to_int z))
  | JStr s => s
  | JObj _ => lit "[object Object]"
  end.

(** A generated HTML document: the fixed markup of the template,
    named and not spelled out, around the interpolated texts. *)
Inductive piece : Type :=
| Markup (what : string)
| Text (s : jsstring).

Record Sender : Type := {
  sender_name : string;
  address : option jsstring
}.

Record MailOptions : Type := {
  from : Sender;
  to : jsval;
  replyTo : option jsval;
  subject : jsstring;
  text : jsstring;
  html : list piece
}.

Definition nl : jsstring := [10].

(** [generateEmailTemplate({ name, email, subject, message })] *)
Definition generateEmailTemplate
  (name email subject : option jsstring) (message : jsstring)
  : list piece :=
  [ Markup "document head, styles and header";
    Markup "field Name";
    Text (interp (sanitizeInput (toVal name)));
    Markup "field Email, link mailto:";
    Text (interp (sanitizeInput (toVal email)));
    Markup "link text";
    Text (interp (sanitizeInput (toVal email)));
    Markup "field Subject";
    Text (interp (sanitizeInput (JStr (or_else subject (lit "No subject")))));
    Markup "field Message";
    Text (replaceAll 10 (lit "<br>") (sanitizeString message));
    Markup "footer and received-on date" ].

(** [generateAutoReplyTemplate(name)] *)
Definition generateAutoReplyTemplate (name : option jsstring) : list piece :=
  [ Markup "document head, styles and header";
    Markup "Hi ";
    Text (interp (sanitizeInput (toVal name)));
    Markup "thank-you paragraphs and footer" ].

(** [mailOptions] of the handler. *)
Definition mailOptions (env : Env) (ip localTime : jsstring)
  (name email subject : option jsstring) (message : jsstring)
  : MailOptions :=
  {| from := {| sender_name := "Portfolio Contact Form";
                address := SMTP_USER env |};
     to := JStr (CONTACT_EMAIL env);
     replyTo := Some (toVal email);
     subject :=
       lit "Portfolio Contact: "
         ++ or_else subject (lit "New message from " ++ interp (toVal name));
     text :=
       trim
         (nl ++ lit "Name: " ++ interp (toVal name)
             ++ nl ++ lit "Email: " ++ interp (toVal email)
             ++ nl ++ lit "Subject: " ++ or_else subject (lit "No subject")
             ++ nl ++ nl ++ lit "Message:"
             ++ nl ++ message
             ++ nl ++ nl ++ lit "---"
             ++ nl ++ lit "Sent from portfolio website on " ++ localTime
             ++ nl ++ lit "IP: " ++ ip
             ++ nl ++ lit "                ");
     html := generateEmailTemplate name email subject message |}.

(** [autoReplyOptions] of the handler. *)
Definition autoReplyOptions (env : Env) (name email : option jsstring)
  : MailOptions :=
  {| from := {| sender_name := "Pradnya Dange"; address := SMTP_USER env |};
     to := toVal email;
     replyTo := None;
     subject := lit "Thank you for contacting me!";
     text :=
       trim
         (nl ++ lit "Hi " ++ interp (toVal name) ++ lit ","
             ++ nl ++ nl
             ++ lit "Thank you for reaching out! I've received your message and will get back to you as soon as possible."
             ++ nl ++ nl ++ lit "Best regards,"
             ++ nl ++ lit "Pradnya Dange"
             ++ nl ++ lit "                ");
     html := generateAutoReplyTemplate name |}.

End Mail.

(* ------------------------------------------------------------------ *)
(** ** The routes *)
(* ------------------------------------------------------------------ *)

Module Server.
Import JS Ext Helpers Validator Http RateLimit Config Mail.

(** What [sendMail] resolves with. *)
Record SentInfo : Type := {
  messageId : jsstring
}.

(** A thrown or rejected error: its [code] and [message]. *)
Record JsError : Type := {
  err_code : jsval;
  err_message : jsstring
}.

(** How a call of [transporter.sendMail] ends. *)
Inductive Outcome : Type :=
| Resolved (info : SentInfo)
| Rejected (e : JsError).

(** What a request does, in order. *)
Inductive Event : Type :=
| SendMail (m : MailOptions)
| Log (line : string)
| Respond (r : Response).

(** The state a handler threads: the number of [sendMail] calls made,
    the events so far, and the calls whose promise was not awaited. *)
Record HState : Type := {
  calls : nat;
  trace : list Event;
  detached : list nat
}.

Definition start : HState := {| calls := 0; trace := []; detached := [] |}.

(** A computation of the handler: it runs on a state and either
    returns or throws. *)
Definition M (A : Type) : Type := HState -> HState * (JsError + A).

Definition ret {A} (a : A) : M A := fun st => (st, inr a).

Definition bind {A B} (m : M A) (k : A -> M B) : M B :=
  fun st =>
    match m st with
    | (st', inr a) => k a st'
    | (st', inl e) => (st', inl e)
    end.

Definition throw {A} (e : JsError) : M A := fun st => (st, inl e).

(** [try { body } catch (error) { handler }] *)
Definition tryCatch {A} (body : M A) (handler : JsError -> M A) : M A :=
  fun st =>
    match body st with
    | (st', inl e) => handler e st'
    | done => done
    end.

Definition emit (ev : Event) : M unit :=
  fun st =>
    ({| calls := calls st; trace := trace st ++ [ev];
        detached := detached st |}, inr tt).

Definition log (line : string) : M unit := emit (Log line).

(** [res.status(s).json(j)] *)
Definition respond (s : nat) (j : Json) : M unit :=
  emit (Respond {| status := s; json := j |}).

Notation "'let!' x ':=' m 'in' k" := (bind m (fun x => k))
  (at level 10, x name, m at level 100, k at level 200).
Notation "m '>>' k" := (bind m (fun _ => k))
  (at level 100, k at level 200, right associativity).

Section Dispatcher.
(** The mail dispatcher: how the k-th call of [sendMail] made while
    serving a request ends. *)
Variable outcomes : nat -> Outcome.

(** [await transporter.sendMail(m)] *)
Definition awaitSendMail (m : MailOptions) : M SentInfo :=
  fun st =>
    let st' := {| calls := S (calls st);
                  trace := trace st ++ [SendMail m];
                  detached := detached st |} in
    match outcomes (calls st) with
    | Resolved info => (st', inr info)
    | Rejected e => (st', inl e)
    end.

(** [transporter.sendMail(m).catch(...)] without [await]: the call
    is made and the handler goes on. *)
Definition detachSendMail (m : MailOptions) : M unit :=
  fun st =>
    ({| calls := S (calls st);
        trace := trace st ++ [SendMail m];
        detached := detached st ++ [calls st] |}, inr tt).

(** The [.catch] callbacks of the detached calls, run once the
    handler is through. *)
Definition settle (ks : list nat) : list Event :=
  flat_map
    (fun k =>
       match outcomes k with
       | Resolved _ => []
       | Rejected _ => [Log "Failed to send auto-reply:"]
       end) ks.

(** Everything a computation does from a fresh state. *)
Definition run (m : M unit) : list Event :=
  let '(st, _) := m start in
  trace st ++ settle (detached st).
End Dispatcher.

(** Every response written, in order. *)
Fixpoint responses (t : list Event) : list Response :=
  match t with
  | [] => []
  | Respond r :: rest => r :: responses rest
  | _ :: rest => responses rest
  end.

(** The messages handed to the dispatcher, in order. *)
Fixpoint sends (t : list Event) : list MailOptions :=
  match t with
  | [] => []
  | SendMail m :: rest => m :: sends rest
  | _ :: rest => sends rest
  end.

Definition spamKeywords : list jsstring :=
  [ lit "casino"; lit "lottery"; lit "winner"; lit "click here";
    lit "free money"; lit "viagra"; lit "crypto" ].

Definition typeError : JsError :=
  {| err_code := JUndefined;
     err_message := lit "Cannot read properties of undefined" |}.

Record Request : Type := {
  ip : jsstring;
  localTime : jsstring;
  isoTime : jsstring;
  body : Body
}.

Section Routes.
Context (X : Externals).
Context (env : Env).
(** [transporter], set once when the server starts. *)
Context (transporter : option Transporter).
Context (outcomes : nat -> Outcome).

(** The spam check of the handler on the message text. *)
Definition containsSpam (message : jsstring) : bool :=
  let messageLower := toLowerCase (unicodeLower X) message in
  existsb (fun keyword => includes messageLower keyword) spamKeywords.

(** The [catch] block of the contact handler. *)
Definition contactCatch (error : JsError) : M unit :=
  log "Error sending email:" >>
  if strict_eq_lit (err_code error) "EAUTH" then
    respond 500
      (Failure
         "Email authentication failed. Please contact the administrator."
         "EMAIL_AUTH_ERROR")
  else if strict_eq_lit (err_code error) "ECONNECTION"
          || strict_eq_lit (err_code error) "ETIMEDOUT" then
    respond 500
      (Failure
         "Could not connect to email server. Please try again later."
         "EMAIL_CONNECTION_ERROR")
  else
    respond 500
      (Failure "An unexpected error occurred. Please try again later."
         "INTERNAL_ERROR").

(** The [try] block of the contact handler, on the body and the
    errors the validation chains left. *)
Definition contactTry (req : Request) (errors : list FieldError) : M unit :=
  match errors with
  | _ :: _ =>
      respond 400
        (ValidationFailure "Validation failed" errors "VALIDATION_ERROR")
  | [] =>
      match transporter with
      | None =>
          log "Email transporter not configured" >>
          respond 503
            (Failure
               "Email service is not configured. Please contact the administrator."
               "SERVICE_UNAVAILABLE")
      | Some _ =>
          let b := body req in
          match msg b with
          | None => throw typeError
          | Some message =>
              if containsSpam message then
                log "Potential spam detected from IP:" >>
                respond 400
                  (Failure
                     "Your message appears to be spam. Please revise and try again."
                     "SPAM_DETECTED")
              else
                let! info :=
                  awaitSendMail outcomes
                    (mailOptions env (ip req) (localTime req)
                       (name b) (email b) (Validator.subject b) message) in
                log "Email sent successfully:" >>
                detachSendMail
                  (autoReplyOptions env (name b) (email b)) >>
                respond 200
                  (ContactSuccess
                     "Your message has been sent successfully! I will get back to you soon."
                     (messageId info))
          end
      end
  end.

(** The handler of [POST /api/contact], the last layer of the route:
    [req] is the request as the validation chains have left it and
    [errors] what [validationResult(req)] holds. *)
Definition contactHandler (req : Request) (errors : list FieldError)
  : M unit :=
  tryCatch (contactTry req errors) contactCatch.

(** The handler of [GET /api/health]. *)
Definition healthHandler (req : Request) : M unit :=
  emit
    (Respond
       {| status := 200;
          json :=
            Health "Server is running" (isoTime req)
              (match transporter with Some _ => true | None => false end)
       |}).

(** [GET /api/health]: the general limiter, then the handler. *)
Definition getHealth (store : gmap (list N) RateWindow) (now : Z)
  (req : Request) : gmap (list N) RateWindow * list Event :=
  match middleware apiLimiter store now (ip req) with
  | (store', Some r) => (store', [Respond r])
  | (store', None) => (store', run outcomes (healthHandler req))
  end.
End Routes.

(** The server as started from an environment: [transporter] is
    [createTransporter()], evaluated once. *)
Definition serverGetHealth (env : Env) :=
  getHealth (createTransporter env).

End Server.

(* ------------------------------------------------------------------ *)
(** ** Concrete inputs *)
(* ------------------------------------------------------------------ *)

Module Samples.
Import JS Validator Config Server.

(** A stand-in for the library functions, used to run the definitions
    on concrete inputs: the identity for [escape] and
    [normalizeEmail], the source's own [isValidEmail] for [isEmail],
    and no change of case outside ASCII. *)
Definition sampleExternals : Ext.Externals :=
  {| Ext.escape := fun s => s;
     Ext.isEmail := Helpers.isValidEmail;
     Ext.normalizeEmail := fun s => s;
     Ext.unicodeLower := fun _ c _ => [c] |}.

(** An environment with the three SMTP settings and nothing else. *)
Definition smtpEnv : Env :=
  {| SMTP_HOST := Some (lit "smtp.example.org");
     SMTP_PORT := None;
     SMTP_SECURE := None;
     SMTP_USER := Some (lit "mailer");
     SMTP_PASS := Some (lit "secret");
     CONTACT_EMAIL_env := None;
     RATE_LIMIT_MAX_env := None;
     NODE_ENV_env := None |}.

(** An environment without SMTP settings. *)
Definition bareEnv : Env :=
  {| SMTP_HOST := None;
     SMTP_PORT := None;
     SMTP_SECURE := None;
     SMTP_USER := None;
     SMTP_PASS := None;
     CONTACT_EMAIL_env := None;
     RATE_LIMIT_MAX_env := None;
     NODE_ENV_env := None |}.

(** A production environment with the contact cap set to ten. *)
Definition tenEnv : Env :=
  {| SMTP_HOST := None;
     SMTP_PORT := None;
     SMTP_SECURE := None;
     SMTP_USER := None;
     SMTP_PASS := None;
     CONTACT_EMAIL_env := None;
     RATE_LIMIT_MAX_env := Some (lit "10");
     NODE_ENV_env := Some (lit "production") |}.

(** [{name:'Jo', email:'jo@x.com', message:'1234567890'}] from
    address 203.0.113.7. *)
Definition joRequest : Request :=
  {| ip := lit "203.0.113.7";
     localTime := lit "1/1/2024, 12:00:00 PM";
     isoTime := lit "2024-01-01T12:00:00.000Z";
     body :=
       {| name := Some (lit "Jo");
          email := Some (lit "jo@x.com");
          subject := None;
          msg := Some (lit "1234567890") |} |}.

(** Texts of a given length. *)
Definition letters (k : N) : jsstring := List.repeat 97 (N.to_nat k).

(** Jo's submission with another name, subject or message. *)
Definition withName (n : jsstring) : Body :=
  {| name := Some n; email := Some (lit "jo@x.com");
     subject := None; msg := Some (lit "1234567890") |}.

Definition withSubject (s : jsstring) : Body :=
  {| name := Some (lit "Jo"); email := Some (lit "jo@x.com");
     subject := Some s; msg := Some (lit "1234567890") |}.

Definition withMessage (m : jsstring) : Body :=
  {| name := Some (lit "Jo"); email := Some (lit "jo@x.com");
     subject := None; msg := Some m |}.

Definition withEmail (e : jsstring) : Body :=
  {| name := Some (lit "Jo"); email := Some e;
     subject := None; msg := Some (lit "1234567890") |}.

Definition sampleInfo : SentInfo := {| messageId := lit "<id-1@example.org>" |}.

Definition errorWithCode (c : string) : JsError :=
  {| err_code := JStr (lit c); err_message := lit "send failed" |}.

(** A dispatcher that accepts every message. *)
Definition accepting : nat -> Outcome := fun _ => Resolved sampleInfo.

(** A dispatcher that rejects every message with the given code. *)
Definition rejecting (c : string) : nat -> Outcome :=
  fun _ => Rejected (errorWithCode c).

End Samples.

(* ------------------------------------------------------------------ *)
(** ** Origins, unmatched routes and the error handler *)
(* ------------------------------------------------------------------ *)

Module Cors.
Import JS Http.

(** The two settings the origin check reads. *)
Record Settings : Type := {
  NODE_ENV_env : option jsstring;
  FRONTEND_URL_env : option jsstring
}.

Definition NODE_ENV (s : Settings) : jsstring :=
  or_else (NODE_ENV_env s) (lit "development").

Definition FRONTEND_URL (s : Settings) : jsstring :=
  or_else (FRONTEND_URL_env s) (lit "http://localhost:5500").

Definition allowedOrigins (s : Settings) : list jsstring :=
  [ FRONTEND_URL s;
    lit "http://localhost:5500";
    lit "http://localhost:3000";
    lit "http://127.0.0.1:5500";
    lit "http://127.0.0.1:3000" ].

(** [l.indexOf(o) !== -1] *)
Definition indexOfFound (l : list jsstring) (o : jsstring) : bool :=
  existsb (fun a => bool_decide (a = o)) l.

(** What the origin function hands to its callback: [(null, true)] or
    an error with a message. *)
Inductive Verdict : Type :=
| Allowed
| NotAllowed (message : string).

(** [corsOptions.origin] *)
Definition origin (s : Settings) (o : option jsstring) : Verdict :=
  if falsy o then Allowed
  else
    let origin := default [] o in
    if bool_decide (NODE_ENV s = lit "development")
       && (includes origin (lit "localhost")
           || includes origin (lit "127.0.0.1"))
    then Allowed
    else if indexOfFound (allowedOrigins s) origin then Allowed
    else NotAllowed "Not allowed by CORS".

(** An error as the global error handler reads it. *)
Record ServerError : Type := {
  message : jsval;
  status : jsval
}.

(** The global error handler. *)
Definition errorHandler (err : ServerError) : Response :=
  if strict_eq_lit (message err) "Not allowed by CORS" then
    {| Http.status := 403;
       json := Failure "Origin not allowed" "CORS_ERROR" |}
  else if match status err with JNum 429 => true | _ => false end then
    {| Http.status := 429;
       json := Failure "Too many requests. Please try again later."
                 "RATE_LIMIT_EXCEEDED" |}
  else
    {| Http.status := 500;
       json := Failure "An unexpected error occurred" "INTERNAL_ERROR" |}.

(** The handler of unmatched routes. *)
Definition notFound : Response :=
  {| Http.status := 404; json := Failure "Endpoint not found" "NOT_FOUND" |}.


End Cors.

(* ------------------------------------------------------------------ *)
(** ** The contact route with its layers *)
(* ------------------------------------------------------------------ *)

Module App.
Import JS Ext Validator Http RateLimit Config Server.

(** The TypeError of calling a boolean, as the global error handler
    reads it: its message is the engine's and it has no [status]. *)
Definition notAFunction : Cors.ServerError :=
  {| Cors.message := JStr (lit "config.skip is not a function");
     Cors.status := JUndefined |}.

(** An error handed on by a layer reaches the global error handler:
    it logs the error and answers. *)
Definition handleError (err : Cors.ServerError) : list Event :=
  [ Log "Server error:"; Respond (Cors.errorHandler err) ].

Section Routes.
Context (X : Externals).
Context (env : Env).
Context (transporter : option Transporter).
Context (outcomes : nat -> Outcome).

(** [POST /api/contact] as it is registered: [contactLimiter], the
    validation chains, the handler.  The result is the limiter's
    store and what the request did. *)
Definition postContact (store : gmap (list N) RateWindow) (now : Z)
  (req : Request) : gmap (list N) RateWindow * list Event :=
  match limiter (contactLimiter env) store now (ip req) with
  | (store', Threw) => (store', handleError notAFunction)
  | (store', Denied r) => (store', [Respond r])
  | (store', Passed) =>
      let '(b, errors) := validate X (body req) in
      (store',
       run outcomes
         (contactHandler X env transporter outcomes
            {| ip := ip req; localTime := localTime req;
               isoTime := isoTime req; body := b |}
            errors))
  end.
End Routes.

End App.

(* ------------------------------------------------------------------ *)
(** ** The page script: theme *)
(* ------------------------------------------------------------------ *)

Module Theme.
Import JS.

(** What the theme code reads and writes: the [data-theme] attribute
    of the document element and the [theme] entry of localStorage. *)
Record Page : Type := {
  dataTheme : option jsstring;
  storedTheme : option jsstring
}.

(** [initTheme], given what the media query for a dark scheme says. *)
Definition initTheme (systemPrefersDark : bool) (p : Page) : Page :=
  if negb (falsy (storedTheme p)) then
    {| dataTheme := storedTheme p; storedTheme := storedTheme p |}
  else if systemPrefersDark then
    {| dataTheme := Some (lit "dark"); storedTheme := storedTheme p |}
  else p.

(** [toggleTheme], as far as the attribute and the storage go. *)
Definition toggleTheme (p : Page) : Page :=
  let newTheme :=
    if bool_decide (dataTheme p = Some (lit "dark"))
    then lit "light" else lit "dark" in
  {| dataTheme := Some newTheme; storedTheme := Some newTheme |}.

(** The listener for changes of the system's scheme. *)
Definition systemThemeChanged (matches : bool) (p : Page) : Page :=
  if falsy (storedTheme p) then
    {| dataTheme := Some (if matches then lit "dark" else lit "light");
       storedTheme := storedTheme p |}
  else p.

(** What can happen to a page once loaded. *)
Inductive Event : Type :=
| Init (systemPrefersDark : bool)
| Toggle
| SystemChanged (matches : bool).

Definition step (p : Page) (e : Event) : Page :=
  match e with
  | Init d => initTheme d p
  | Toggle => toggleTheme p
  | SystemChanged m => systemThemeChanged m p
  end.

Definition run (p : Page) (es : list Event) : Page := fold_left step es p.

(** A page load: the attribute is what the markup carries, the
    storage is what earlier visits left, and [initTheme] runs. *)
Definition load (markup : option jsstring) (systemPrefersDark : bool)
  (stored : option jsstring) : Page :=
  initTheme systemPrefersDark {| dataTheme := markup; storedTheme := stored |}.

End Theme.

(* ------------------------------------------------------------------ *)
(** ** The page script: throttle and debounce *)
(* ------------------------------------------------------------------ *)

Module Timing.

(** What happens to a wrapped function: it is called with arguments,
    or the timer it set runs out. *)
Inductive Event (A : Type) : Type :=
| Invoke (args : A)
| Timeout.
Arguments Invoke {A} args.
Arguments Timeout {A}.

(** How a run of [func] ends. *)
Inductive Completion : Type := Returns | Throws.

(** What happens around the function [throttle] returns: it is called
    with arguments, the run of [func] that is under way ends, or a
    timer runs out. *)
Inductive ThrottleEvent (A : Type) : Type :=
| Call (args : A)
| Ends (how : Completion)
| TimerFires.
Arguments Call {A} args.
Arguments Ends {A} how.
Arguments TimerFires {A}.

(** The state of [throttle]'s closure and of the calls it has under
    way: the flag, the timers set and not yet run out, and the runs
    of [func] that have not ended (one inside the other, when [func]
    calls the wrapper again). *)
Record Throttle : Type := {
  inThrottle : bool;
  timers : nat;
  running : nat
}.

Definition throttleStart : Throttle :=
  {| inThrottle := false; timers := 0; running := 0 |}.

(** One event on the function [throttle] returns: the new state and
    the arguments [func] starts to run with, if it does.  A call with
    the flag not set starts [func]; the flag and the timer are set
    only when that run returns, and not at all when it throws.  A
    timer runs out only between calls, and one that was never set
    does not run out; nothing ends when nothing runs. *)
Definition throttleStep {A} (st : Throttle) (e : ThrottleEvent A)
  : Throttle * option A :=
  match e with
  | Call args =>
      if negb (inThrottle st)
      then ({| inThrottle := inThrottle st; timers := timers st;
               running := S (running st) |}, Some args)
      else (st, None)
  | Ends how =>
      match running st with
      | O => (st, None)
      | S n =>
          match how with
          | Returns =>
              ({| inThrottle := true; timers := S (timers st);
                  running := n |}, None)
          | Throws =>
              ({| inThrottle := inThrottle st; timers := timers st;
                  running := n |}, None)
          end
      end
  | TimerFires =>
      match running st, timers st with
      | O, S n => ({| inThrottle := false; timers := n; running := 0 |}, None)
      | _, _ => (st, None)
      end
  end.

(** A sequence of events: the state it leaves and the arguments of
    the runs of [func], in order. *)
Fixpoint throttleRun {A} (st : Throttle) (es : list (ThrottleEvent A))
  : Throttle * list A :=
  match es with
  | [] => (st, [])
  | e :: rest =>
      let '(st1, out) := throttleStep st e in
      let '(st2, outs) := throttleRun st1 rest in
      (st2, match out with Some a => a :: outs | None => outs end)
  end.

(** [func] behaves on a sequence of events: it never throws, and the
    wrapper is never called while it runs. *)
Fixpoint orderly {A} (st : Throttle) (es : list (ThrottleEvent A)) : bool :=
  match es with
  | [] => true
  | e :: rest =>
      match e with
      | Call _ => Nat.eqb (running st) 0
      | Ends Throws => false
      | Ends Returns | TimerFires => true
      end
      && orderly (fst (throttleStep st e)) rest
  end.

(** How many times a timer was due. *)
Definition timerFirings {A} (es : list (ThrottleEvent A)) : nat :=
  length
    (List.filter
       (fun e => match e with TimerFires => true | _ => false end) es).

(** The state of [debounce]'s closure: the arguments held by the live
    timer, if there is one. *)
Definition Debounce (A : Type) : Type := option A.

(** One event on the function [debounce] returns: a call clears the
    timer and sets a new one holding its arguments; the timer running
    out runs [func] with the arguments it holds. *)
Definition debounceStep {A} (st : Debounce A) (e : Event A)
  : Debounce A * option A :=
  match e with
  | Invoke args => (Some args, None)
  | Timeout =>
      match st with
      | Some args => (None, Some args)
      | None => (None, None)
      end
  end.

Fixpoint debounceRun {A} (st : Debounce A) (es : list (Event A))
  : Debounce A * list (option A) :=
  match es with
  | [] => (st, [])
  | e :: rest =>
      let '(st1, out) := debounceStep st e in
      let '(st2, outs) := debounceRun st1 rest in
      (st2, out :: outs)
  end.

End Timing.

(* ------------------------------------------------------------------ *)
(** ** The page script: the contact form *)
(* ------------------------------------------------------------------ *)

Module Client.
Import JS Helpers Validator Http.

(** The values of the four inputs of the form. *)
Record FormValues : Type := {
  nameValue : jsstring;
  emailValue : jsstring;
  subjectValue : jsstring;
  messageValue : jsstring
}.

(** [formData]: every value trimmed. *)
Definition formData (v : FormValues) : FormValues :=
  {| nameValue := trim (nameValue v);
     emailValue := trim (emailValue v);
     subjectValue := trim (subjectValue v);
     messageValue := trim (messageValue v) |}.

(** [JSON.stringify(formData)] as the server's body parser reads it. *)
Definition toBody (f : FormValues) : Body :=
  {| name := Some (nameValue f);
     email := Some (emailValue f);
     subject := Some (subjectValue f);
     msg := Some (messageValue f) |}.

(** [!s] for a string *)
Definition isEmpty (s : jsstring) : bool :=
  match s with [] => true | _ :: _ => false end.

(** The client-side checks of the submit listener, in order: the
    text of the first that fails. *)
Definition clientCheck (f : FormValues) : option string :=
  if isEmpty (nameValue f) || (length (nameValue f) <? 2)%nat then
    Some "Please enter a valid name (at least 2 characters)"%string
  else if isEmpty (emailValue f) || negb (Regex.test emailRegex (emailValue f))
  then Some "Please enter a valid email address"%string
  else if isEmpty (messageValue f) || (length (messageValue f) <? 10)%nat then
    Some "Please enter a message (at least 10 characters)"%string
  else None.

(** How [submitContactForm]'s request ends: [fetch] or the reading
    of the answer fails with an error that has a message, or an
    answer with a JSON body arrives. *)
Inductive FetchResult : Type :=
| Failed (message : string)
| Answered (r : Response).

(** [response.ok] *)
Definition ok (r : Response) : bool :=
  (200 <=? status r)%nat && (status r <=? 299)%nat.

(** [data.message] *)
Definition jsonMessage (j : Json) : option string :=
  match j with
  | ContactSuccess m _ | Health m _ _ => Some m
  | Failure _ _ | ValidationFailure _ _ _ => None
  end.

(** [data.details] *)
Definition jsonDetails (j : Json) : option (list FieldError) :=
  match j with
  | ValidationFailure _ details _ => Some details
  | _ => None
  end.

(** [a || b] on texts: undefined and the empty text are falsy. *)
Definition text_or (a : option string) (b : string) : string :=
  match a with
  | Some EmptyString | None => b
  | Some s => s
  end.

(** The message the [catch] block of the listener shows for an
    answer that is not [ok]. *)
Definition errorMessageFor (data : Json) : string :=
  let code := code {| status := 0; json := data |} in
  if bool_decide (code = Some "VALIDATION_ERROR"%string) then
    text_or
      (option_map (fun ds => String.concat ", " (map message ds))
         (jsonDetails data))
      "Please check your input"
  else if bool_decide (code = Some "RATE_LIMIT_EXCEEDED"%string) then
    "Too many attempts. Please wait a few minutes before trying again."
  else if bool_decide (code = Some "SPAM_DETECTED"%string) then
    "Your message was flagged as spam. Please revise and try again."
  else if bool_decide (code = Some "SERVICE_UNAVAILABLE"%string) then
    "Email service is temporarily unavailable. Please try again later."
  else if bool_decide (code = Some "EMAIL_AUTH_ERROR"%string)
          || bool_decide (code = Some "EMAIL_CONNECTION_ERROR"%string) then
    "There was a problem connecting to the email service. Please try again later."
  else "Failed to send message. Please try again later.".

Inductive MessageKind : Type := SuccessMessage | ErrorMessage.

(** What the listener does to the page and the network. *)
Inductive Action : Type :=
| ShowFormMessage (kind : MessageKind) (text : string)
| SetFormLoading (isLoading : bool)
| Send (body : Body)
| ResetForm
| ButtonSent
| ButtonColorCleared
| ConsoleError.

(** An action done at once, or set to run after a delay. *)
Inductive UiEvent : Type :=
| Now (a : Action)
| After (ms : Z) (a : Action).

Section Submit.
(** The server, as the page sees it. *)
Variable server : Body -> FetchResult.

(** The [catch] block. *)
Definition submitFailed (r : FetchResult) : list UiEvent :=
  let errorMessage :=
    match r with
    | Answered resp => errorMessageFor (json resp)
    | Failed m =>
        text_or (Some m) "Failed to send message. Please try again later."
    end in
  [ Now ConsoleError;
    Now (ShowFormMessage ErrorMessage errorMessage);
    Now (SetFormLoading false) ].

(** The submit listener of the contact form. *)
Definition onSubmit (v : FormValues) : list UiEvent :=
  let f := formData v in
  match clientCheck f with
  | Some text => [ Now (ShowFormMessage ErrorMessage text) ]
  | None =>
      Now (SetFormLoading true)
      :: Now (Send (toBody f))
      :: match server (toBody f) with
         | Answered resp =>
             if ok resp then
               [ Now (ShowFormMessage SuccessMessage
                        (text_or (jsonMessage (json resp))
                           "Your message has been sent successfully!"));
                 Now ResetForm;
                 Now ButtonSent;
                 After 3000 (SetFormLoading false);
                 After 3000 ButtonColorCleared ]
             else submitFailed (Answered resp)
         | Failed m => submitFailed (Failed m)
         end
  end.
End Submit.

(** The actions of a run, delayed ones included, in order. *)
Definition actions (es : list UiEvent) : list Action :=
  map (fun e => match e with Now a | After _ a => a end) es.

(** The messages shown, in order. *)
Fixpoint shown (acts : list Action) : list (MessageKind * string) :=
  match acts with
  | [] => []
  | ShowFormMessage kind text :: rest => (kind, text) :: shown rest
  | _ :: rest => shown rest
  end.

(** The bodies sent to the server, in order. *)
Fixpoint sentBodies (acts : list Action) : list Body :=
  match acts with
  | [] => []
  | Send b :: rest => b :: sentBodies rest
  | _ :: rest => sentBodies rest
  end.

(** The loading states set on the button, in order. *)
Fixpoint loading (acts : list Action) : list bool :=
  match acts with
  | [] => []
  | SetFormLoading b :: rest => b :: loading rest
  | _ :: rest => loading rest
  end.

(** How many times the form was reset. *)
Fixpoint resets (acts : list Action) : nat :=
  match acts with
  | [] => 0
  | ResetForm :: rest => S (resets rest)
  | _ :: rest => resets rest
  end.

End Client.

(* ================================================================== *)
(** * Properties *)
(* ================================================================== *)

Module JSFacts.
Import JS.

Lemma startsWith_spec (k s : jsstring) :
  startsWith s k = true <-> exists post, s = k ++ post.
Proof.
  revert s. induction k as [|a k IH]; intros s; simpl.
  - split; [intros _; now exists s | reflexivity].
  - destruct s as [|b s].
    + split; [discriminate | intros [post H]; discriminate].
    + rewrite andb_true_iff, N.eqb_eq, IH. split.
      * intros [-> [post ->]]. now exists post.
      * intros [post H]. injection H as -> ->. split; [reflexivity | now exists post].
Qed.

Lemma includes_spec (s k : jsstring) :
  includes s k = true <-> exists pre post, s = pre ++ k ++ post.
Proof.
  induction s as [|c s IH]; simpl.
  - rewrite orb_false_r, startsWith_spec. split.
    + intros [post H]. now exists [], post.
    + intros [pre [post H]]. destruct pre; [now exists post | discriminate].
  - rewrite orb_true_iff, startsWith_spec, IH. split.
    + intros [[post H] | [pre [post H]]].
      * now exists [], post.
      * exists (c :: pre), post. simpl. now rewrite H.
    + intros [pre [post H]]. destruct pre as [|d pre]; simpl in H.
      * left. now exists post.
      * right. injection H as _ ->. now exists pre, post.
Qed.

Lemma trimStart_split (s : jsstring) :
  exists ws, s = ws ++ trimStart s /\ Forall (fun c => isWhiteSpace c = true) ws.
Proof.
  induction s as [|c s (ws & Hs & Hws)]; simpl.
  - now exists [].
  - destruct (isWhiteSpace c) eqn:Hc.
    + exists (c :: ws). simpl. split; [now rewrite <- Hs | now constructor].
    + now exists [].
Qed.

(** Trimming removes a stretch of white space at each end and nothing
    else. *)
Lemma trim_split (s : jsstring) :
  exists ws1 ws2,
    s = ws1 ++ trim s ++ ws2
    /\ Forall (fun c => isWhiteSpace c = true) ws1
    /\ Forall (fun c => isWhiteSpace c = true) ws2.
Proof.
  unfold trim, trimEnd.
  destruct (trimStart_split s) as (ws1 & Hs & H1).
  destruct (trimStart_split (rev (trimStart s))) as (ws2 & Hr & H2).
  exists ws1, (rev ws2). split; [| split; [exact H1 | now apply Forall_rev]].
  rewrite Hs at 1. f_equal.
  rewrite <- (rev_involutive (trimStart s)) at 1. rewrite Hr at 1.
  now rewrite rev_app_distr.
Qed.

Lemma asciiLower_ascii (c : N) : asciiLower c < 128 -> c < 128.
Proof.
  unfold asciiLower.
  destruct (N.leb_spec 65 c), (N.leb_spec c 90); simpl; lia.
Qed.

Lemma asciiLower_all_ascii (w : jsstring) :
  Forall (fun c => c < 128) (map asciiLower w) -> Forall (fun c => c < 128) w.
Proof.
  induction w as [|c w IH]; simpl; intros H; [constructor |].
  inversion H; subst. constructor; [now apply asciiLower_ascii | auto].
Qed.

Section Lower.
Variable unicodeLower : jsstring -> N -> jsstring -> jsstring.

Lemma toLowerCaseFrom_app (a b seen : jsstring) :
  toLowerCaseFrom unicodeLower seen (a ++ b)
  = match a with
    | [] => toLowerCaseFrom unicodeLower seen b
    | c :: a' =>
        (if c <? 128 then [asciiLower c] else unicodeLower seen c (a' ++ b))
          ++ toLowerCaseFrom unicodeLower (c :: seen) (a' ++ b)
    end.
Proof. destruct a; reflexivity. Qed.

(** Lower-casing cuts at any point: what precedes the cut yields
    some text, what follows yields some text. *)
Lemma toLowerCaseFrom_split (a b seen : jsstring) :
  exists a', toLowerCaseFrom unicodeLower seen (a ++ b)
             = a' ++ toLowerCaseFrom unicodeLower (rev a ++ seen) b.
Proof.
  revert seen. induction a as [|c a IH]; intros seen; simpl.
  - now exists [].
  - destruct (IH (c :: seen)) as [a' ->].
    eexists. rewrite <- (app_assoc (rev a) [c] seen). simpl.
    rewrite app_assoc. reflexivity.
Qed.

(** An ASCII stretch is lower-cased unit by unit, whatever
    surrounds it. *)
Lemma toLowerCaseFrom_ascii (w b seen : jsstring) :
  Forall (fun c => c < 128) w ->
  toLowerCaseFrom unicodeLower seen (w ++ b)
  = map asciiLower w ++ toLowerCaseFrom unicodeLower (rev w ++ seen) b.
Proof.
  intros Hw. revert seen. induction Hw as [|c w Hc Hw IH]; intros seen; simpl.
  - reflexivity.
  - apply N.ltb_lt in Hc. rewrite Hc. simpl. rewrite IH.
    now rewrite <- (app_assoc (rev w) [c] seen).
Qed.

Lemma toLowerCase_ascii_inside (pre w post : jsstring) :
  Forall (fun c => c < 128) w ->
  exists pre' post',
    toLowerCase unicodeLower (pre ++ w ++ post)
    = pre' ++ map asciiLower w ++ post'.
Proof.
  intros Hw. unfold toLowerCase.
  destruct (toLowerCaseFrom_split pre (w ++ post) []) as [pre' ->].
  rewrite toLowerCaseFrom_ascii by assumption.
  eexists _, _. reflexivity.
Qed.
End Lower.

End JSFacts.

(* ------------------------------------------------------------------ *)
(** ** The spam filter *)
(* ------------------------------------------------------------------ *)

Module SpamFilter.
Import JS Ext Server Samples JSFacts.

Lemma containsSpam_iff (X : Externals) (m : jsstring) :
  containsSpam X m = true <->
  exists k, In k spamKeywords /\
    exists pre post, toLowerCase (unicodeLower X) m = pre ++ k ++ post.
Proof.
  unfold containsSpam. rewrite existsb_exists.
  split; intros [k [Hk H]]; exists k; (split; [exact Hk |]);
    now apply includes_spec.
Qed.

Lemma containsSpam_keyword_any_case (X : Externals)
  (k pre w post : jsstring) :
  In k spamKeywords -> map asciiLower w = k ->
  containsSpam X (pre ++ w ++ post) = true.
Proof.
  intros Hk Hw. apply containsSpam_iff. exists k. split; [exact Hk |].
  assert (Hascii : Forall (fun c => c < 128) w).
  { apply asciiLower_all_ascii. rewrite Hw.
    unfold spamKeywords in Hk. simpl in Hk.
    repeat (destruct Hk as [<- | Hk];
            [ repeat constructor |]).
    destruct Hk. }
  destruct (toLowerCase_ascii_inside (unicodeLower X) pre w post Hascii)
    as [pre' [post' ->]].
  rewrite Hw. now exists pre', post'.
Qed.

(** C5. The spam filter answers true exactly when the lower-cased
    message contains one of the seven blocklisted texts as a
    substring, wherever it stands; a message that contains "viagra"
    in any mix of upper and lower case, in any context, is flagged;
    a message whose lower-cased text contains no blocklisted text is
    not. *)
Theorem containsSpam_blocklist (X : Externals) (m : jsstring) :
  spamKeywords
    = [ lit "casino"; lit "lottery"; lit "winner"; lit "click here";
        lit "free money"; lit "viagra"; lit "crypto" ]
  /\ (containsSpam X m = true <->
      exists k, In k spamKeywords /\
        exists pre post, toLowerCase (unicodeLower X) m = pre ++ k ++ post)
  /\ (forall pre w post,
        map asciiLower w = lit "viagra" ->
        containsSpam X (pre ++ w ++ post) = true)
  /\ ((forall k, In k spamKeywords ->
         forall pre post,
           toLowerCase (unicodeLower X) m <> pre ++ k ++ post) ->
      containsSpam X m = false).
Proof.
  split; [reflexivity |]. split; [apply containsSpam_iff |]. split.
  - intros pre w post Hw.
    apply (containsSpam_keyword_any_case X (lit "viagra")); [| exact Hw].
    unfold spamKeywords. simpl. tauto.
  - intros Hnone. apply not_true_is_false. intros Hspam.
    apply containsSpam_iff in Hspam as [k [Hk [pre [post H]]]].
    exact (Hnone k Hk pre post H).
Qed.

Lemma containsSpam_blocklist_witness :
  map asciiLower (lit "ViAgRa") = lit "viagra"
  /\ containsSpam sampleExternals (lit "Buy ViAgRa now") = true.
Proof.
  split; [reflexivity |].
  exact (proj1 (proj2 (proj2 (containsSpam_blocklist sampleExternals [])))
           (lit "Buy ") (lit "ViAgRa") (lit " now") eq_refl).
Defined.

Example containsSpam_clean :
  containsSpam sampleExternals (lit "Hello, I would like to hire you") = false.
Proof. reflexivity. Qed.

Example containsSpam_inside_word :
  containsSpam sampleExternals (lit "my CRYPTOgraphy thesis") = true.
Proof. reflexivity. Qed.

End SpamFilter.

(* ------------------------------------------------------------------ *)
(** ** The input sanitizer *)
(* ------------------------------------------------------------------ *)

Module SanitizerFacts.
Import JS Helpers JSFacts.

Lemma replaceAll_self (c : N) (s : jsstring) : replaceAll c [c] s = s.
Proof.
  unfold replaceAll. induction s as [|x s IH]; simpl; [reflexivity |].
  rewrite IH. destruct (N.eqb_spec x c); subst; reflexivity.
Qed.

(** Of the four replacements only the last changes the text. *)
Lemma sanitizeString_apostrophe_only (s : jsstring) :
  sanitizeString s = trim (replaceAll SQUOTE (lit "&#x27;") s).
Proof.
  unfold sanitizeString.
  change (lit ">") with [GT]. change (lit "<") with [LT].
  now rewrite !replaceAll_self.
Qed.

Lemma sanitizeInput_non_string (v : jsval) :
  typeof_string v = false -> sanitizeInput v = v.
Proof. destruct v; simpl; intros H; [reflexivity.. | discriminate | reflexivity]. Qed.

(** C2 (the code falls short of it). The sanitizer returns a string
    with its angle brackets and double quotes as they were: on [<b>]
    it returns [<b>], on a double quote a double quote; in general it
    only rewrites the apostrophe and trims. *)
Theorem sanitizeInput_keeps_markup :
  sanitizeInput (JStr (lit "<b>")) = JStr (lit "<b>")
  /\ sanitizeInput (JStr [DQUOTE]) = JStr [DQUOTE]
  /\ sanitizeInput (JStr (lit " it's ")) = JStr (lit "it&#x27;s")
  /\ forall s, sanitizeInput (JStr s)
               = JStr (trim (replaceAll SQUOTE (lit "&#x27;") s)).
Proof.
  repeat split; try reflexivity.
  intros s. simpl. now rewrite sanitizeString_apostrophe_only.
Qed.

(** C9 (the code falls short of it). Sanitizing the text [<script>]
    yields [<script>] again, raw angle brackets included, and so does
    sanitizing the result a second time. *)
Theorem sanitizeInput_script_unchanged :
  sanitizeInput (JStr (lit "<script>")) = JStr (lit "<script>")
  /\ sanitizeInput (sanitizeInput (JStr (lit "<script>")))
     = JStr (lit "<script>")
  /\ In LT (sanitizeString (sanitizeString (lit "<script>")))
  /\ In GT (sanitizeString (sanitizeString (lit "<script>"))).
Proof. repeat split; try reflexivity; vm_compute; tauto. Qed.

Lemma trim_In (c : N) (s : jsstring) : In c (trim s) -> In c s.
Proof.
  intros H. destruct (trim_split s) as (ws1 & ws2 & Hs & _).
  rewrite Hs. apply in_or_app. right. apply in_or_app. now left.
Qed.

(** The sanitizer's result holds no raw apostrophe, whatever the
    input. *)
Theorem sanitizeString_no_apostrophe (s : jsstring) :
  Forall (fun c => c <> SQUOTE) (sanitizeString s).
Proof.
  apply List.Forall_forall. intros c H ->. revert H.
  rewrite sanitizeString_apostrophe_only. intros H. apply trim_In in H.
  unfold replaceAll in H. apply in_flat_map in H as (x & _ & Hx).
  destruct (x =? SQUOTE) eqn:Hx'.
  - vm_compute in Hx. intuition discriminate.
  - apply N.eqb_neq in Hx'. destruct Hx as [Hx | []]. now apply Hx'.
Qed.

End SanitizerFacts.

(* ------------------------------------------------------------------ *)
(** ** The contact pipeline *)
(* ------------------------------------------------------------------ *)

Module PipelineFacts.
Import JS Ext Helpers Validator Http RateLimit Config Mail Server Samples.

Lemma strict_eq_lit_true (v : jsval) (s : string) :
  strict_eq_lit v s = true <-> v = JStr (lit s).
Proof.
  destruct v; simpl; try (split; [discriminate | intros H; discriminate]).
  rewrite bool_decide_eq_true. split; [now intros -> | now intros [= ->]].
Qed.

Lemma strict_eq_lit_false (v : jsval) (s : string) :
  strict_eq_lit v s = false <-> v <> JStr (lit s).
Proof.
  rewrite <- strict_eq_lit_true. now destruct (strict_eq_lit v s).
Qed.

Lemma sends_app (a b : list Event) : sends (a ++ b) = sends a ++ sends b.
Proof.
  induction a as [|[m | l | r] a IH]; simpl; [reflexivity | now rewrite IH | exact IH..].
Qed.

Lemma responses_app (a b : list Event) :
  responses (a ++ b) = responses a ++ responses b.
Proof.
  induction a as [|[m | l | r] a IH]; simpl; [reflexivity | exact IH.. | now rewrite IH].
Qed.

Lemma sends_In (m : MailOptions) (t : list Event) :
  In m (sends t) -> In (SendMail m) t.
Proof.
  induction t as [|[m' | l | r] t IH]; simpl; [tauto | | tauto..].
  intros [-> | H]; [now left | right; auto].
Qed.

(** The [.catch] callbacks only log. *)
Lemma settle_quiet (outcomes : nat -> Outcome) (ks : list nat) :
  sends (settle outcomes ks) = [] /\ responses (settle outcomes ks) = [].
Proof.
  unfold settle. induction ks as [|k ks [IH1 IH2]]; simpl; [now split |].
  rewrite sends_app, responses_app, IH1, IH2.
  now destruct (outcomes k).
Qed.

(** The [catch] block adds its events to whatever went before. *)
Lemma contactCatch_frame (error : JsError) (st : HState) :
  contactCatch error st
  = ({| calls := calls st;
        trace := trace st ++ trace (fst (contactCatch error start));
        detached := detached st |}, inr tt).
Proof.
  unfold contactCatch, bind, log, respond, emit. simpl.
  destruct (strict_eq_lit (err_code error) "EAUTH"); simpl;
    [| destruct (strict_eq_lit (err_code error) "ECONNECTION"
                 || strict_eq_lit (err_code error) "ETIMEDOUT") ];
    simpl; now rewrite <- app_assoc.
Qed.

(** What the [catch] block writes: a log line and one response, with
    status 500 and a code chosen by the error's [code]. *)
Lemma contactCatch_response (error : JsError) :
  exists r,
    trace (fst (contactCatch error start))
    = [ Log "Error sending email:"; Respond r ]
    /\ status r = 500%nat /\ success r = false
    /\ (err_code error = JStr (lit "EAUTH") ->
        code r = Some "EMAIL_AUTH_ERROR"%string)
    /\ (err_code error = JStr (lit "ECONNECTION")
        \/ err_code error = JStr (lit "ETIMEDOUT") ->
        code r = Some "EMAIL_CONNECTION_ERROR"%string)
    /\ (err_code error <> JStr (lit "EAUTH") ->
        err_code error <> JStr (lit "ECONNECTION") ->
        err_code error <> JStr (lit "ETIMEDOUT") ->
        code r = Some "INTERNAL_ERROR"%string)
    /\ In (code r)
         [ Some "EMAIL_AUTH_ERROR"%string;
           Some "EMAIL_CONNECTION_ERROR"%string;
           Some "INTERNAL_ERROR"%string ].
Proof.
  unfold contactCatch, bind, log, respond, emit. simpl.
  destruct (strict_eq_lit (err_code error) "EAUTH") eqn:Ha; simpl.
  - apply strict_eq_lit_true in Ha. eexists. split; [reflexivity |].
    simpl. repeat split; try tauto.
    intros [H | H]; rewrite Ha in H; discriminate.
  - apply strict_eq_lit_false in Ha.
    destruct (strict_eq_lit (err_code error) "ECONNECTION") eqn:Hc; simpl.
    + apply strict_eq_lit_true in Hc. eexists. split; [reflexivity |].
      simpl. repeat split; tauto.
    + apply strict_eq_lit_false in Hc.
      destruct (strict_eq_lit (err_code error) "ETIMEDOUT") eqn:Ht; simpl.
      * apply strict_eq_lit_true in Ht. eexists. split; [reflexivity |].
        simpl. repeat split; tauto.
      * apply strict_eq_lit_false in Ht. eexists. split; [reflexivity |].
        simpl. repeat split; tauto.
Qed.

(** The message the chains hand on: trimmed, then escaped; an
    undefined one as the empty string. *)
Lemma validate_msg (X : Externals) (b : Body) :
  msg (fst (validate X b)) = Some (escape X (trimmed (msg b))).
Proof.
  unfold validate, runChain, trimmed.
  destruct (name b), (email b), (Validator.subject b), (msg b); reflexivity.
Qed.

Section Handler.
Context (X : Externals) (env : Env) (transporter : option Transporter).
Context (outcomes : nat -> Outcome).

(** The handler, path by path. *)
Lemma contactHandler_run (req : Request) (errors : list FieldError) :
  run outcomes (contactHandler X env transporter outcomes req errors)
  = match errors with
    | _ :: _ =>
        [ Respond
            {| status := 400;
               json := ValidationFailure "Validation failed" errors
                         "VALIDATION_ERROR" |} ]
    | [] =>
        match transporter with
        | None =>
            [ Log "Email transporter not configured";
              Respond
                {| status := 503;
                   json :=
                     Failure
                       "Email service is not configured. Please contact the administrator."
                       "SERVICE_UNAVAILABLE" |} ]
        | Some _ =>
            match msg (body req) with
            | None =>
                trace (fst (contactCatch typeError start))
            | Some message =>
                if containsSpam X message then
                  [ Log "Potential spam detected from IP:";
                    Respond
                      {| status := 400;
                         json :=
                           Failure
                             "Your message appears to be spam. Please revise and try again."
                             "SPAM_DETECTED" |} ]
                else
                  let notification :=
                    mailOptions env (ip req) (localTime req)
                      (name (body req)) (email (body req))
                      (Validator.subject (body req)) message in
                  match outcomes 0%nat with
                  | Rejected e =>
                      SendMail notification
                        :: trace (fst (contactCatch e start))
                  | Resolved info =>
                      [ SendMail notification;
                        Log "Email sent successfully:";
                        SendMail
                          (autoReplyOptions env (name (body req))
                             (email (body req)));
                        Respond
                          {| status := 200;
                             json :=
                               ContactSuccess
                                 "Your message has been sent successfully! I will get back to you soon."
                                 (messageId info) |} ]
                        ++ settle outcomes [1%nat]
                  end
            end
        end
    end.
Proof.
  unfold run, contactHandler, tryCatch, contactTry.
  destruct errors as [|err errors']; [| reflexivity].
  destruct transporter as [t|]; [| reflexivity].
  destruct (msg (body req)) as [message|].
  2:{ unfold throw. rewrite contactCatch_frame. reflexivity. }
  destruct (containsSpam X message); [reflexivity |].
  unfold bind, awaitSendMail. simpl.
  destruct (outcomes 0%nat) as [info | e].
  - reflexivity.
  - rewrite contactCatch_frame. simpl. now rewrite app_nil_r.
Qed.

End Handler.

End PipelineFacts.

Module Pipeline.
Import JS Ext Helpers Validator Http RateLimit Config Mail Server Samples.
Import PipelineFacts.

Section Handled.
Context (X : Externals) (env : Env) (transporter : option Transporter).
Context (outcomes : nat -> Outcome).
Context (req : Request) (errors : list FieldError).

(** What the handler can do: answer without any send, or send the
    notification and answer from the [catch] block when it is
    rejected, or send the notification, then the acknowledgement, and
    answer 200. *)
Lemma contactHandler_shape :
  let t := run outcomes (contactHandler X env transporter outcomes req errors) in
  (sends t = [] /\ exists r, responses t = [r] /\ status r <> 200%nat)
  \/ (exists message e,
        outcomes 0%nat = Rejected e
        /\ t = SendMail
                 (mailOptions env (ip req) (localTime req)
                    (name (body req)) (email (body req))
                    (Validator.subject (body req)) message)
                 :: trace (fst (contactCatch e start)))
  \/ (exists message info,
        outcomes 0%nat = Resolved info
        /\ t = [ SendMail
                   (mailOptions env (ip req) (localTime req)
                      (name (body req)) (email (body req))
                      (Validator.subject (body req)) message);
                 Log "Email sent successfully:";
                 SendMail
                   (autoReplyOptions env (name (body req))
                      (email (body req)));
                 Respond
                   {| status := 200;
                      json :=
                        ContactSuccess
                          "Your message has been sent successfully! I will get back to you soon."
                          (messageId info) |} ]
               ++ settle outcomes [1%nat]).
Proof.
  intros t. subst t. rewrite contactHandler_run.
  destruct errors as [|err errs].
  2:{ left. simpl. split; [reflexivity |]. eexists. split; [reflexivity |].
      simpl. discriminate. }
  destruct transporter as [tr|].
  2:{ left. simpl. split; [reflexivity |]. eexists. split; [reflexivity |].
      simpl. discriminate. }
  destruct (msg (body req)) as [message|].
  2:{ left. simpl. split; [reflexivity |]. eexists. split; [reflexivity |].
      simpl. discriminate. }
  destruct (containsSpam X message).
  { left. simpl. split; [reflexivity |]. eexists. split; [reflexivity |].
    simpl. discriminate. }
  simpl. destruct (outcomes 0%nat) as [info | e] eqn:Hout.
  - right. right. exists message, info. split; reflexivity.
  - right. left. exists message, e. split; reflexivity.
Qed.

End Handled.

Lemma autoReply_not_notification (env : Env) (n e : option jsstring)
  (ip lt : jsstring) (n' e' s' : option jsstring) (m : jsstring) :
  autoReplyOptions env n e <> mailOptions env ip lt n' e' s' m.
Proof.
  intros H. apply (f_equal (fun o => sender_name (from o))) in H.
  discriminate.
Qed.

(** C6. On the contact handler: when the notification send is
    attempted and rejected, the handler writes one response, with
    status 500, whose code is EMAIL_AUTH_ERROR when the error's code
    is EAUTH, EMAIL_CONNECTION_ERROR when it is ECONNECTION or
    ETIMEDOUT, and INTERNAL_ERROR for every other error; and nothing
    else is sent. *)
Theorem notification_failure_response
  (X : Externals) (env : Env) (transporter : option Transporter)
  (outcomes : nat -> Outcome) (req : Request) (errors : list FieldError)
  (e : JsError) :
  let t := run outcomes (contactHandler X env transporter outcomes req errors) in
  sends t <> [] ->
  outcomes 0%nat = Rejected e ->
  exists r,
    responses t = [r]
    /\ status r = 500%nat /\ success r = false
    /\ (err_code e = JStr (lit "EAUTH") ->
        code r = Some "EMAIL_AUTH_ERROR"%string)
    /\ (err_code e = JStr (lit "ECONNECTION")
        \/ err_code e = JStr (lit "ETIMEDOUT") ->
        code r = Some "EMAIL_CONNECTION_ERROR"%string)
    /\ (err_code e <> JStr (lit "EAUTH") ->
        err_code e <> JStr (lit "ECONNECTION") ->
        err_code e <> JStr (lit "ETIMEDOUT") ->
        code r = Some "INTERNAL_ERROR"%string)
    /\ In (code r)
         [ Some "EMAIL_AUTH_ERROR"%string;
           Some "EMAIL_CONNECTION_ERROR"%string;
           Some "INTERNAL_ERROR"%string ]
    /\ length (sends t) = 1%nat.
Proof.
  intros t Hsent Hout. subst t.
  destruct (contactHandler_shape X env transporter outcomes req errors)
    as [[Hnone _] | [(message & e' & He' & Ht) | (message & info & Hi & _)]].
  - contradiction.
  - rewrite Hout in He'. injection He' as <-.
    destruct (contactCatch_response e) as (r & Hr & H500 & Hfail & Hcodes).
    rewrite Ht, Hr. exists r. simpl. tauto.
  - rewrite Hout in Hi. discriminate.
Qed.

Lemma notification_failure_response_witness :
  exists r,
    responses
      (run (rejecting "EAUTH")
         (contactHandler sampleExternals smtpEnv (createTransporter smtpEnv)
            (rejecting "EAUTH") joRequest [])) = [r]
    /\ status r = 500%nat
    /\ code r = Some "EMAIL_AUTH_ERROR"%string.
Proof.
  destruct (notification_failure_response sampleExternals smtpEnv
              (createTransporter smtpEnv) (rejecting "EAUTH") joRequest []
              (errorWithCode "EAUTH"))
    as (r & Hr & H500 & _ & Hauth & _).
  - vm_compute. discriminate.
  - reflexivity.
  - exists r. split; [exact Hr |]. split; [exact H500 |].
    apply Hauth. reflexivity.
Defined.

(** C7. On the contact handler: a submission that has left no
    validation error, that meets a configured transporter, whose
    message is not flagged as spam and whose notification send is
    accepted, is answered once, with status 200, [success: true] and
    the message identifier the dispatcher returned; exactly two
    messages are handed to the dispatcher, the notification and then
    the acknowledgement. *)
Theorem accepted_submission_answered
  (X : Externals) (env : Env) (tr : Transporter)
  (outcomes : nat -> Outcome) (req : Request) (message : jsstring)
  (info : SentInfo) :
  let b := body req in
  let t := run outcomes (contactHandler X env (Some tr) outcomes req []) in
  msg b = Some message ->
  containsSpam X message = false ->
  outcomes 0%nat = Resolved info ->
  responses t
  = [ {| status := 200;
         json :=
           ContactSuccess
             "Your message has been sent successfully! I will get back to you soon."
             (messageId info) |} ]
  /\ Forall (fun r => success r = true) (responses t)
  /\ sends t
     = [ mailOptions env (ip req) (localTime req) (name b) (email b)
           (Validator.subject b) message;
         autoReplyOptions env (name b) (email b) ].
Proof.
  intros b t Hmsg Hclean Hout. subst t b.
  rewrite contactHandler_run, Hmsg, Hclean, Hout.
  cbv zeta. rewrite responses_app, sends_app.
  destruct (settle_quiet outcomes [1%nat]) as [-> ->].
  simpl. repeat split; repeat constructor.
Qed.

Lemma accepted_submission_answered_witness :
  let t := run accepting
             (contactHandler sampleExternals smtpEnv
                (createTransporter smtpEnv) accepting joRequest []) in
  responses t
  = [ {| status := 200;
         json :=
           ContactSuccess
             "Your message has been sent successfully! I will get back to you soon."
             (lit "<id-1@example.org>") |} ]
  /\ length (sends t) = 2%nat.
Proof.
  destruct (createTransporter smtpEnv) as [tr|] eqn:Htr; [| discriminate].
  destruct (accepted_submission_answered sampleExternals smtpEnv tr accepting
              joRequest (lit "1234567890") sampleInfo)
    as (Hr & _ & Hs); try reflexivity.
  split; [exact Hr | now rewrite Hs].
Defined.

Lemma cons_eq_inv {A : Type} (a b : A) (l l' : list A) :
  a :: l = b :: l' -> a = b /\ l = l'.
Proof. intros H. now injection H. Qed.

Lemma sends_split (pre post : list Event) (a : MailOptions) :
  sends (pre ++ SendMail a :: post) = sends pre ++ a :: sends post.
Proof. now rewrite sends_app. Qed.

(** The dispatcher with the outcome of its second call, the
    acknowledgement's, replaced. *)
Lemma responses_ignore_acknowledgement
  (X : Externals) (env : Env) (transporter : option Transporter)
  (outcomes : nat -> Outcome) (req : Request) (errors : list FieldError)
  (ack : Outcome) :
  let outcomes' := fun k => if Nat.eqb k 1 then ack else outcomes k in
  responses
    (run outcomes' (contactHandler X env transporter outcomes' req errors))
  = responses
      (run outcomes (contactHandler X env transporter outcomes req errors))
  /\ sends
       (run outcomes' (contactHandler X env transporter outcomes' req errors))
     = sends
         (run outcomes (contactHandler X env transporter outcomes req errors)).
Proof.
  intros outcomes'. rewrite !contactHandler_run.
  destruct errors; [| now split].
  destruct transporter; [| now split].
  destruct (msg (body req)) as [message|]; [| now split].
  destruct (containsSpam X message); [now split |].
  change (outcomes' 0%nat) with (outcomes 0%nat).
  destruct (outcomes 0%nat); [| now split].
  subst outcomes'. simpl. destruct ack, (outcomes 1%nat); now split.
Qed.

(** C1. On the contact handler, whatever the submission: wherever the
    acknowledgement is handed to the dispatcher, the notification was
    handed over before it and its send had been accepted; and the
    responses written do not depend on how the acknowledgement's send
    ends. *)
Theorem acknowledgement_after_notification
  (X : Externals) (env : Env) (transporter : option Transporter)
  (outcomes : nat -> Outcome) (req : Request) (errors : list FieldError) :
  let b := body req in
  let t := run outcomes (contactHandler X env transporter outcomes req errors) in
  (forall pre post n e,
      t = pre ++ SendMail (autoReplyOptions env n e) :: post ->
      exists info message,
        outcomes 0%nat = Resolved info
        /\ In (SendMail
                 (mailOptions env (ip req) (localTime req) (name b) (email b)
                    (Validator.subject b) message)) pre)
  /\ (forall ack : Outcome,
        let outcomes' := fun k => if Nat.eqb k 1 then ack else outcomes k in
        responses
          (run outcomes'
             (contactHandler X env transporter outcomes' req errors))
        = responses t).
Proof.
  intros b t. split.
  - intros pre post n e Ht.
    assert (Hs : sends t = sends pre ++ autoReplyOptions env n e :: sends post)
      by (rewrite Ht; apply sends_split).
    subst t b.
    destruct (contactHandler_shape X env transporter outcomes req errors)
      as [[Hnone _] | [(message & e' & He' & Hshape) | (message & info & Hi & Hshape)]].
    + rewrite Hnone in Hs. now destruct (sends pre).
    + rewrite Hshape in Hs.
      destruct (contactCatch_response e') as (r & Hr & _).
      rewrite Hr in Hs. simpl in Hs.
      destruct (sends pre) as [|m l]; simpl in Hs;
        apply cons_eq_inv in Hs as [Hs Hl].
      * symmetry in Hs. now apply autoReply_not_notification in Hs.
      * now destruct l.
    + exists info, message. split; [exact Hi |].
      rewrite Hshape in Hs. rewrite sends_app in Hs.
      destruct (settle_quiet outcomes [1%nat]) as [Hq _]. rewrite Hq in Hs.
      simpl in Hs. clear Hq.
      destruct (sends pre) as [|m l] eqn:Hpre; simpl in Hs;
        apply cons_eq_inv in Hs as [Hs Hl].
      * symmetry in Hs. now apply autoReply_not_notification in Hs.
      * apply sends_In. rewrite Hpre, <- Hs. now left.
  - intros ack.
    apply (responses_ignore_acknowledgement X env transporter outcomes req
             errors ack).
Qed.

Lemma acknowledgement_after_notification_witness :
  let late := fun k => if Nat.eqb k 1
                       then Rejected (errorWithCode "ETIMEDOUT")
                       else accepting k in
  let t := run accepting
             (contactHandler sampleExternals smtpEnv
                (createTransporter smtpEnv) accepting joRequest []) in
  (exists pre post n e,
      t = pre ++ SendMail (autoReplyOptions smtpEnv n e) :: post
      /\ exists m, In (SendMail m) pre)
  /\ responses
       (run late
          (contactHandler sampleExternals smtpEnv (createTransporter smtpEnv)
             late joRequest []))
     = responses t.
Proof.
  pose proof (acknowledgement_after_notification sampleExternals smtpEnv
                (createTransporter smtpEnv) accepting joRequest [])
    as [Hafter Hsame].
  split.
  - eexists [_; _], [_], (Some (lit "Jo")), (Some (lit "jo@x.com")).
    assert (Hsplit :
      run accepting
        (contactHandler sampleExternals smtpEnv (createTransporter smtpEnv)
           accepting joRequest [])
      = [ SendMail
            (mailOptions smtpEnv (ip joRequest) (localTime joRequest)
               (Some (lit "Jo")) (Some (lit "jo@x.com")) None
               (lit "1234567890"));
          Log "Email sent successfully:" ]
        ++ SendMail
             (autoReplyOptions smtpEnv (Some (lit "Jo")) (Some (lit "jo@x.com")))
           :: [ Respond
                  {| status := 200;
                     json :=
                       ContactSuccess
                         "Your message has been sent successfully! I will get back to you soon."
                         (lit "<id-1@example.org>") |} ])
      by (vm_compute; reflexivity).
    split; [exact Hsplit |].
    destruct (Hafter _ _ _ _ Hsplit) as (info & message & _ & Hin).
    eexists. exact Hin.
  - apply Hsame.
Defined.

(** The transporter exists exactly when the three SMTP settings are
    set and not empty. *)
Lemma createTransporter_configured (env : Env) :
  is_Some (createTransporter env)
  <-> falsy (SMTP_HOST env) = false
      /\ falsy (SMTP_USER env) = false
      /\ falsy (SMTP_PASS env) = false.
Proof.
  unfold createTransporter.
  destruct (falsy (SMTP_HOST env)), (falsy (SMTP_USER env)),
    (falsy (SMTP_PASS env)); simpl;
    (split; [intros [t Ht]; try discriminate; tauto
            | intros (H1 & H2 & H3); try discriminate; eauto]).
Qed.

Lemma falsy_false_iff (v : option jsstring) :
  falsy v = false <-> exists c s, v = Some (c :: s).
Proof.
  destruct v as [[|c s]|]; simpl; split;
    try discriminate; try (intros (c' & s' & H); discriminate); eauto.
Qed.

(** C10. The health answer's [emailConfigured] is true exactly when
    the transporter was created when the server started, that is when
    the SMTP host, user and password are all set and not empty; and
    the same transporter decides the contact handler: without it,
    every submission that has left no validation error is answered
    503 SERVICE_UNAVAILABLE and nothing is handed to the
    dispatcher. *)
Theorem transporter_decides_availability (env : Env) :
  (is_Some (createTransporter env)
   <-> (exists c s, SMTP_HOST env = Some (c :: s))
       /\ (exists c s, SMTP_USER env = Some (c :: s))
       /\ (exists c s, SMTP_PASS env = Some (c :: s)))
  /\ (forall outcomes store now req,
        snd (middleware apiLimiter store now (ip req)) = None ->
        exists configured,
          snd (serverGetHealth env outcomes store now req)
          = [ Respond
                {| status := 200;
                   json := Health "Server is running" (isoTime req)
                             configured |} ]
          /\ (configured = true <-> is_Some (createTransporter env)))
  /\ (forall X outcomes req,
        createTransporter env = None ->
        let t := run outcomes
                   (contactHandler X env (createTransporter env) outcomes
                      req []) in
        responses t
        = [ {| status := 503;
               json :=
                 Failure
                   "Email service is not configured. Please contact the administrator."
                   "SERVICE_UNAVAILABLE" |} ]
        /\ sends t = []).
Proof.
  split; [| split].
  - rewrite createTransporter_configured, !falsy_false_iff. reflexivity.
  - intros outcomes store now req Hlim.
    unfold serverGetHealth, getHealth.
    destruct (middleware apiLimiter store now (ip req)) as [s' [r|]];
      simpl in Hlim; [discriminate |].
    destruct (createTransporter env) as [tr|]; simpl.
    + exists true. split; [reflexivity |]. split; eauto.
    + exists false. split; [reflexivity |].
      split; [discriminate | intros [tr Htr]; discriminate].
  - intros X outcomes req Hnone t. subst t.
    rewrite Hnone, contactHandler_run. now split.
Qed.

Lemma transporter_decides_availability_witness :
  let t := run accepting
             (contactHandler sampleExternals bareEnv
                (createTransporter bareEnv) accepting joRequest []) in
  createTransporter bareEnv = None
  /\ map status (responses t) = [503%nat] /\ sends t = [].
Proof.
  destruct (transporter_decides_availability bareEnv) as (_ & _ & H).
  destruct (H sampleExternals accepting joRequest) as [Hr Hs];
    try reflexivity.
  split; [reflexivity |]. split; [now rewrite Hr | exact Hs].
Defined.

(** On the contact handler: a submission without validation errors
    that meets a transporter and whose message the filter flags is
    answered 400 with code SPAM_DETECTED, whatever the dispatcher
    would do, and nothing is handed to it. *)
Theorem flagged_submission_rejected
  (X : Externals) (env : Env) (tr : Transporter)
  (outcomes : nat -> Outcome) (req : Request) (message : jsstring) :
  let t := run outcomes (contactHandler X env (Some tr) outcomes req []) in
  msg (body req) = Some message ->
  containsSpam X message = true ->
  t = [ Log "Potential spam detected from IP:";
        Respond
          {| status := 400;
             json :=
               Failure
                 "Your message appears to be spam. Please revise and try again."
                 "SPAM_DETECTED" |} ]
  /\ sends t = [].
Proof.
  intros t Hmsg Hspam. subst t.
  rewrite contactHandler_run, Hmsg, Hspam. now split.
Qed.

Lemma flagged_submission_rejected_witness :
  let req :=
    {| ip := ip joRequest; localTime := localTime joRequest;
       isoTime := isoTime joRequest;
       body := withMessage (lit "Claim your FREE MONEY today") |} in
  let t := run accepting
             (contactHandler sampleExternals smtpEnv
                (createTransporter smtpEnv) accepting req []) in
  map status (responses t) = [400%nat]
  /\ map code (responses t) = [Some "SPAM_DETECTED"%string]
  /\ sends t = [].
Proof.
  intros req.
  destruct (createTransporter smtpEnv) as [tr|] eqn:Htr; [| discriminate].
  destruct (flagged_submission_rejected sampleExternals smtpEnv tr accepting
              req (lit "Claim your FREE MONEY today")) as [Hr Hs];
    try reflexivity.
  intros t. subst t. rewrite Hr. now repeat split.
Defined.

(** On the contact handler: validation errors come first.  A
    submission that has left any is answered 400 with code
    VALIDATION_ERROR and the errors as details, and that is all the
    handler does: whether there is a transporter, what the message
    holds and what the dispatcher would do make no difference, and
    nothing is handed to the dispatcher. *)
Theorem invalid_submission_rejected
  (X : Externals) (env : Env) (transporter : option Transporter)
  (outcomes : nat -> Outcome) (req : Request) (errors : list FieldError) :
  let t := run outcomes (contactHandler X env transporter outcomes req errors) in
  errors <> [] ->
  t = [ Respond
          {| status := 400;
             json :=
               ValidationFailure "Validation failed" errors
                 "VALIDATION_ERROR" |} ]
  /\ sends t = [].
Proof.
  intros t Hval. subst t. rewrite contactHandler_run.
  destruct errors; [contradiction | now split].
Qed.

Lemma invalid_submission_rejected_witness :
  let raw := withName (lit "J") in
  let req :=
    {| ip := ip joRequest; localTime := localTime joRequest;
       isoTime := isoTime joRequest;
       body := fst (validate sampleExternals raw) |} in
  let t := run accepting
             (contactHandler sampleExternals smtpEnv
                (createTransporter smtpEnv) accepting req
                (validationErrors sampleExternals raw)) in
  map status (responses t) = [400%nat]
  /\ map code (responses t) = [Some "VALIDATION_ERROR"%string]
  /\ sends t = [].
Proof.
  intros raw req.
  destruct (invalid_submission_rejected sampleExternals smtpEnv
              (createTransporter smtpEnv) accepting req
              (validationErrors sampleExternals raw)) as [Hr Hs];
    [vm_compute; discriminate |].
  intros t. subst t. rewrite Hr. now repeat split.
Defined.

End Pipeline.

(* ------------------------------------------------------------------ *)
(** ** The validation chains *)
(* ------------------------------------------------------------------ *)

Module ValidatorFacts.
Import JS Ext Validator Samples.

Lemma report_nil (p : string) (ok : jsstring -> bool) (text : string)
  (v : jsstring) : report p ok text v = [] <-> ok v = true.
Proof. unfold report. destruct (ok v); split; congruence. Qed.

Lemma isLength_spec (lo hi : N) (s : jsstring) :
  isLength lo (Some hi) s = true <-> lo <= strLength s <= hi.
Proof.
  unfold isLength. rewrite andb_true_iff, !N.leb_le. reflexivity.
Qed.

Lemma notEmpty_spec (s : jsstring) : notEmpty s = true <-> s <> [].
Proof. destruct s; simpl; split; congruence. Qed.

Lemma strLength_positive (s : jsstring) : 1 <= strLength s -> s <> [].
Proof. intros H ->. unfold strLength in H. simpl in H. lia. Qed.

Lemma errorsFor_app (f : string) (a b : list FieldError) :
  errorsFor f (a ++ b) = errorsFor f a ++ errorsFor f b.
Proof. apply List.filter_app. Qed.

Lemma errorsFor_report (f p : string) (ok : jsstring -> bool) (text : string)
  (v : jsstring) :
  errorsFor f (report p ok text v)
  = if String.eqb p f then report p ok text v else [].
Proof.
  unfold errorsFor, report.
  destruct (ok v); simpl; now destruct (String.eqb p f).
Qed.

Section Rules.
Context (X : Externals) (b : Body).

(** The error list, check by check, in the order of the chains. *)
Lemma validationErrors_reports :
  validationErrors X b
  = report "name" notEmpty "Name is required" (trimmed (name b))
    ++ report "name" (isLength 2 (Some 100))
         "Name must be between 2 and 100 characters" (trimmed (name b))
    ++ report "email" notEmpty "Email is required" (trimmed (email b))
    ++ report "email" (isEmail X) "Please provide a valid email address"
         (trimmed (email b))
    ++ report "email" (isLength 0 (Some 254)) "Email is too long"
         (normalizeEmail X (trimmed (email b)))
    ++ match subject b with
       | None => []
       | Some s =>
           report "subject" (isLength 0 (Some 200))
             "Subject must be less than 200 characters" (trim s)
       end
    ++ report "message" notEmpty "Message is required" (trimmed (msg b))
    ++ report "message" (isLength 10 (Some 5000))
         "Message must be between 10 and 5000 characters" (trimmed (msg b)).
Proof.
  unfold validationErrors, validate, runChain, trimmed.
  destruct (name b), (email b), (subject b), (msg b); simpl;
    now rewrite ?app_nil_r, <- ?app_assoc.
Qed.

Lemma validationErrors_nil :
  validationErrors X b = [] <->
  (2 <= strLength (trimmed (name b)) <= 100)
  /\ (trimmed (email b) <> []
      /\ isEmail X (trimmed (email b)) = true
      /\ (strLength (normalizeEmail X (trimmed (email b))) <= 254))
  /\ (forall s, subject b = Some s -> (strLength (trim s) <= 200))
  /\ (10 <= strLength (trimmed (msg b)) <= 5000).
Proof.
  rewrite validationErrors_reports.
  rewrite !app_nil, !report_nil, !isLength_spec, !notEmpty_spec.
  assert (Hsubject :
    match subject b with
    | None => []
    | Some s =>
        report "subject" (isLength 0 (Some 200))
          "Subject must be less than 200 characters" (trim s)
    end = []
    <-> forall s, subject b = Some s -> (strLength (trim s) <= 200)).
  { destruct (subject b) as [s|].
    - rewrite report_nil, isLength_spec. split.
      + intros [_ H] s' [= <-]. exact H.
      + intros H. split; [lia | now apply H].
    - split; [intros _ s' H; discriminate | reflexivity]. }
  rewrite Hsubject. clear Hsubject.
  split.
  - intros (_ & Hn & He & Hv & Hl & Hs & _ & Hm). repeat split; auto; lia.
  - intros (Hn & (He & Hv & Hl) & Hs & Hm).
    repeat split; auto; try lia; apply strLength_positive; lia.
Qed.

Lemma nameErrors_nil :
  errorsFor "name" (validationErrors X b) = [] <->
  (2 <= strLength (trimmed (name b)) <= 100).
Proof.
  rewrite validationErrors_reports, !errorsFor_app, !errorsFor_report.
  assert (Hrest : forall l,
    errorsFor "name"
      match subject b with
      | None => []
      | Some s =>
          report "subject" (isLength 0 (Some 200))
            "Subject must be less than 200 characters" (trim s)
      end ++ l = l).
  { intros l. destruct (subject b); [rewrite errorsFor_report |]; reflexivity. }
  simpl. rewrite Hrest, app_nil_r.
  rewrite app_nil, !report_nil, isLength_spec, notEmpty_spec.
  split; [tauto |].
  intros H. split; [apply strLength_positive; lia | exact H].
Qed.

Lemma messageErrors_nil :
  errorsFor "message" (validationErrors X b) = [] <->
  (10 <= strLength (trimmed (msg b)) <= 5000).
Proof.
  rewrite validationErrors_reports, !errorsFor_app, !errorsFor_report.
  assert (Hsub :
    errorsFor "message"
      match subject b with
      | None => []
      | Some s =>
          report "subject" (isLength 0 (Some 200))
            "Subject must be less than 200 characters" (trim s)
      end = []).
  { destruct (subject b); [rewrite errorsFor_report |]; reflexivity. }
  rewrite Hsub. simpl.
  rewrite app_nil, !report_nil, isLength_spec, notEmpty_spec.
  split; [tauto |].
  intros H. split; [apply strLength_positive; lia | exact H].
Qed.

End Rules.

(** C4, as the chains have it. Every field is trimmed before its
    checks, an undefined required field counting as empty.  The error
    list is the concatenation, in the order of the chains, of what
    each check reports: one error, naming the field, per failing
    check, and no check is skipped because an earlier one failed.  It
    is empty exactly when the trimmed name has length 2 to 100, the
    trimmed email is not empty, passes the address check and has a
    normalized form of length at most 254, the subject is undefined or
    its trimmed text has length at most 200, and the trimmed message
    has length 10 to 5000.  The name is reported exactly when its
    trimmed length is outside 2..100, the message exactly when its
    trimmed length is outside 10..5000. *)
Theorem validator_rules (X : Externals) (b : Body) :
  validationErrors X b
  = report "name" notEmpty "Name is required" (trimmed (name b))
    ++ report "name" (isLength 2 (Some 100))
         "Name must be between 2 and 100 characters" (trimmed (name b))
    ++ report "email" notEmpty "Email is required" (trimmed (email b))
    ++ report "email" (isEmail X) "Please provide a valid email address"
         (trimmed (email b))
    ++ report "email" (isLength 0 (Some 254)) "Email is too long"
         (normalizeEmail X (trimmed (email b)))
    ++ match subject b with
       | None => []
       | Some s =>
           report "subject" (isLength 0 (Some 200))
             "Subject must be less than 200 characters" (trim s)
       end
    ++ report "message" notEmpty "Message is required" (trimmed (msg b))
    ++ report "message" (isLength 10 (Some 5000))
         "Message must be between 10 and 5000 characters" (trimmed (msg b))
  /\ (validationErrors X b = [] <->
      (2 <= strLength (trimmed (name b)) <= 100)
      /\ (trimmed (email b) <> []
          /\ isEmail X (trimmed (email b)) = true
          /\ (strLength (normalizeEmail X (trimmed (email b))) <= 254))
      /\ (forall s, subject b = Some s -> (strLength (trim s) <= 200))
      /\ (10 <= strLength (trimmed (msg b)) <= 5000))
  /\ (errorsFor "name" (validationErrors X b) = [] <->
      (2 <= strLength (trimmed (name b)) <= 100))
  /\ (errorsFor "message" (validationErrors X b) = [] <->
      (10 <= strLength (trimmed (msg b)) <= 5000)).
Proof.
  split; [apply validationErrors_reports |].
  split; [apply validationErrors_nil |].
  split; [apply nameErrors_nil | apply messageErrors_nil].
Qed.

(** The boundaries: names of 2 and 100 characters pass, of 1 and 101
    are reported; messages of 10 and 5000 characters pass, of 9 and
    5001 are reported. *)
Lemma validator_rules_witness :
  (errorsFor "name" (validationErrors sampleExternals (withName (letters 2))) = []
   /\ errorsFor "name" (validationErrors sampleExternals (withName (letters 100))) = []
   /\ errorsFor "name" (validationErrors sampleExternals (withName (letters 1))) <> []
   /\ errorsFor "name" (validationErrors sampleExternals (withName (letters (100 + 1)))) <> [])
  /\ (errorsFor "message" (validationErrors sampleExternals (withMessage (letters 10))) = []
      /\ errorsFor "message" (validationErrors sampleExternals (withMessage (letters 5000))) = []
      /\ errorsFor "message" (validationErrors sampleExternals (withMessage (letters 9))) <> []
      /\ errorsFor "message" (validationErrors sampleExternals (withMessage (letters (5000 + 1)))) <> []).
Proof.
  assert (Hname : forall k,
    errorsFor "name" (validationErrors sampleExternals (withName (letters k))) = []
    <-> (2 <= strLength (trimmed (Some (letters k))) <= 100))
    by (intros k; apply (validator_rules sampleExternals (withName (letters k)))).
  assert (Hmsg : forall k,
    errorsFor "message" (validationErrors sampleExternals (withMessage (letters k))) = []
    <-> (10 <= strLength (trimmed (Some (letters k))) <= 5000))
    by (intros k; apply (validator_rules sampleExternals (withMessage (letters k)))).
  assert (Hlen : forall k,
    In k [1; 2; 9; 10; 100; 100 + 1; 5000; 5000 + 1] ->
    strLength (trimmed (Some (letters k))) = k).
  { intros k Hk. simpl in Hk.
    repeat (destruct Hk as [<- | Hk]; [vm_compute; reflexivity |]).
    destruct Hk. }
  split; (split; [| split; [| split]]).
  - apply (proj2 (Hname 2)). rewrite Hlen by (simpl; tauto). lia.
  - apply (proj2 (Hname 100)). rewrite Hlen by (simpl; tauto). lia.
  - intros H. apply (proj1 (Hname 1)) in H.
    rewrite Hlen in H by (simpl; tauto). lia.
  - intros H. apply (proj1 (Hname (100 + 1))) in H.
    rewrite Hlen in H by (simpl; tauto). lia.
  - apply (proj2 (Hmsg 10)). rewrite Hlen by (simpl; tauto). lia.
  - apply (proj2 (Hmsg 5000)). rewrite Hlen by (simpl; tauto). lia.
  - intros H. apply (proj1 (Hmsg 9)) in H.
    rewrite Hlen in H by (simpl; tauto). lia.
  - intros H. apply (proj1 (Hmsg (5000 + 1))) in H.
    rewrite Hlen in H by (simpl; tauto). lia.
Defined.

(** A subject of 200 letters and a trailing space has 201 characters
    and leaves no error; an email with a leading space is not an
    address as it stands and leaves no error either. *)
Lemma validator_subject_counterexample :
  (validationErrors sampleExternals (withSubject (letters 200 ++ lit " ")) = []
   /\ ~ (subject (withSubject (letters 200 ++ lit " ")) = None
         \/ exists s, subject (withSubject (letters 200 ++ lit " ")) = Some s
                      /\ strLength s <= 200))
  /\ (validationErrors sampleExternals (withEmail (lit " jo@x.com")) = []
      /\ isEmail sampleExternals (lit " jo@x.com") = false).
Proof.
  split; split; try (vm_compute; reflexivity).
  intros [H | (s & [= <-] & H)]; [discriminate |].
  vm_compute in H. now apply H.
Qed.

End ValidatorFacts.

(* ------------------------------------------------------------------ *)
(** ** The pattern matcher *)
(* ------------------------------------------------------------------ *)

Module RegexFacts.
Import JS Regex.

Lemma Matches_Void (s : jsstring) : ~ Matches Void s.
Proof. inversion 1. Qed.

Lemma Matches_Eps (s : jsstring) : Matches Eps s <-> s = [].
Proof. split; [now inversion 1 | intros ->; constructor]. Qed.

Lemma Matches_Class (p : N -> bool) (s : jsstring) :
  Matches (Class p) s <-> exists c, s = [c] /\ p c = true.
Proof.
  split.
  - inversion 1; subst. eauto.
  - intros (c & -> & Hc). now constructor.
Qed.

Lemma Matches_Cat (r1 r2 : re) (s : jsstring) :
  Matches (Cat r1 r2) s <->
  exists s1 s2, s = s1 ++ s2 /\ Matches r1 s1 /\ Matches r2 s2.
Proof.
  split.
  - inversion 1; subst. eauto.
  - intros (s1 & s2 & -> & H1 & H2). now constructor.
Qed.

Lemma Matches_Alt (r1 r2 : re) (s : jsstring) :
  Matches (Alt r1 r2) s <-> Matches r1 s \/ Matches r2 s.
Proof.
  split.
  - inversion 1; subst; auto.
  - intros [H | H]; [now apply MAltL | now apply MAltR].
Qed.

(** A non-empty match of [r*] starts with a non-empty match of [r]. *)
Lemma Matches_Star_cons (r : re) (c : N) (s : jsstring) :
  Matches (Star r) (c :: s) <->
  exists s1 s2, s = s1 ++ s2 /\ Matches r (c :: s1) /\ Matches (Star r) s2.
Proof.
  split.
  - intros H. remember (Star r) as r' eqn:Er. remember (c :: s) as cs eqn:Es.
    revert c s Es.
    induction H as [| | | | | r0 | r0 s1 s2 H1 _ H2 IH2]; try discriminate;
      intros c s Es; injection Er as ->.
    destruct s1 as [|c1 s1]; simpl in Es.
    + now apply IH2.
    + injection Es as -> <-. eauto.
  - intros (s1 & s2 & -> & H1 & H2).
    change (c :: s1 ++ s2) with ((c :: s1) ++ s2). now constructor.
Qed.

Lemma nullable_spec (r : re) : nullable r = true <-> Matches r [].
Proof.
  induction r as [| | p | r1 IH1 r2 IH2 | r1 IH1 r2 IH2 | r IH]; simpl.
  - split; [discriminate | intros H; now apply Matches_Void in H].
  - split; [constructor | reflexivity].
  - rewrite Matches_Class. split; [discriminate | intros (c & H & _); discriminate].
  - rewrite andb_true_iff, IH1, IH2, Matches_Cat. split.
    + intros [H1 H2]. now exists [], [].
    + intros (s1 & s2 & Hs & H1 & H2). symmetry in Hs.
      apply app_nil in Hs as [-> ->]. now split.
  - now rewrite orb_true_iff, IH1, IH2, Matches_Alt.
  - split; [constructor | reflexivity].
Qed.

Lemma deriv_spec (r : re) (c : N) (s : jsstring) :
  Matches (deriv c r) s <-> Matches r (c :: s).
Proof.
  revert s.
  induction r as [| | p | r1 IH1 r2 IH2 | r1 IH1 r2 IH2 | r IH];
    intros s; simpl.
  - split; intros H; now apply Matches_Void in H.
  - rewrite Matches_Eps. split; [intros H; now apply Matches_Void in H | discriminate].
  - rewrite Matches_Class. destruct (p c) eqn:Hp.
    + rewrite Matches_Eps. split.
      * intros ->. eauto.
      * now intros (c' & [= -> ->] & _).
    + split; [intros H; now apply Matches_Void in H |].
      intros (c' & [= -> ->] & H). congruence.
  - assert (Hcat :
      Matches (Cat r1 r2) (c :: s) <->
      Matches (Cat (deriv c r1) r2) s
      \/ (nullable r1 = true /\ Matches (deriv c r2) s)).
    { rewrite !Matches_Cat, nullable_spec, IH2. split.
      - intros (s1 & s2 & Hs & H1 & H2). destruct s1 as [|c1 s1]; simpl in Hs.
        + subst s2. now right.
        + injection Hs as <- ->. left. exists s1, s2.
          rewrite IH1. now split.
      - intros [(s1 & s2 & -> & H1 & H2) | [H1 H2]].
        + exists (c :: s1), s2. rewrite <- IH1. now split.
        + now exists [], (c :: s). }
    rewrite Hcat. destruct (nullable r1).
    + rewrite Matches_Alt. intuition.
    + intuition discriminate.
  - now rewrite !Matches_Alt, IH1, IH2.
  - rewrite Matches_Star_cons, Matches_Cat.
    split; intros (s1 & s2 & Hs & H1 & H2); exists s1, s2;
      (split; [exact Hs |]); (split; [now apply IH | exact H2]).
Qed.

(** The matcher decides the pattern's language. *)
Lemma test_spec (r : re) (s : jsstring) : test r s = true <-> Matches r s.
Proof.
  revert r. induction s as [|c s IH]; intros r; simpl.
  - apply nullable_spec.
  - now rewrite IH, deriv_spec.
Qed.

Lemma Matches_Star_Class (p : N -> bool) (s : jsstring) :
  Matches (Star (Class p)) s <-> Forall (fun c => p c = true) s.
Proof.
  induction s as [|c s IH].
  - split; constructor.
  - rewrite Matches_Star_cons. split.
    + intros (s1 & s2 & -> & H1 & H2).
      apply Matches_Class in H1 as (c' & [= -> ->] & Hc).
      constructor; [exact Hc | now apply IH].
    + intros H. inversion H; subst. exists [], s.
      split; [reflexivity |]. split; [| now apply IH].
      apply Matches_Class. eauto.
Qed.

Lemma Matches_Plus_Class (p : N -> bool) (s : jsstring) :
  Matches (Plus (Class p)) s <-> s <> [] /\ Forall (fun c => p c = true) s.
Proof.
  unfold Plus. rewrite Matches_Cat. split.
  - intros (s1 & s2 & -> & H1 & H2).
    apply Matches_Class in H1 as (c & -> & Hc).
    apply Matches_Star_Class in H2. split; [discriminate |].
    now constructor.
  - intros [Hne H]. destruct s as [|c s]; [contradiction |].
    inversion H; subst. exists [c], s. split; [reflexivity |].
    split; [apply Matches_Class; eauto | now apply Matches_Star_Class].
Qed.

Lemma Matches_Chr (c : N) (s : jsstring) : Matches (Chr c) s <-> s = [c].
Proof.
  unfold Chr. rewrite Matches_Class. split.
  - intros (c' & -> & H). apply N.eqb_eq in H. now subst.
  - intros ->. exists c. split; [reflexivity | apply N.eqb_refl].
Qed.

End RegexFacts.

(* ------------------------------------------------------------------ *)
(** ** The email pattern *)
(* ------------------------------------------------------------------ *)

Module EmailFacts.
Import JS Regex Helpers Ext Validator Samples JSFacts RegexFacts ValidatorFacts.

Lemma countOf_app (c : N) (a b : jsstring) :
  countOf c (a ++ b) = (countOf c a + countOf c b)%nat.
Proof. unfold countOf. now rewrite List.filter_app, length_app. Qed.

Lemma countOf_none (c : N) (s : jsstring) :
  Forall (fun x => x <> c) s -> countOf c s = 0%nat.
Proof.
  unfold countOf. induction 1 as [|x s Hx _ IH]; simpl; [reflexivity |].
  destruct (N.eqb_spec c x); [congruence | exact IH].
Qed.

Lemma whitespace_not (c : N) (ws : jsstring) :
  isWhiteSpace c = false ->
  Forall (fun x => isWhiteSpace x = true) ws -> Forall (fun x => x <> c) ws.
Proof.
  intros Hc Hws. induction Hws as [|x ws Hx _ IH]; constructor; [| exact IH].
  intros ->. congruence.
Qed.

Lemma notSpaceNorAt_not_at (s : jsstring) :
  Forall (fun c => notSpaceNorAt c = true) s -> Forall (fun x => x <> AT) s.
Proof.
  intros H. induction H as [|x s Hx _ IH]; constructor; [| exact IH].
  intros ->. discriminate.
Qed.

(** The strings [isValidEmail] accepts: a local part, [@], and a
    domain with a dot inside, all free of white space and of [@]. *)
Lemma isValidEmail_spec (e : jsstring) :
  isValidEmail e = true <->
  exists u d t,
    e = u ++ AT :: d ++ DOT :: t
    /\ u <> [] /\ d <> [] /\ t <> []
    /\ Forall (fun c => notSpaceNorAt c = true) u
    /\ Forall (fun c => notSpaceNorAt c = true) d
    /\ Forall (fun c => notSpaceNorAt c = true) t.
Proof.
  unfold isValidEmail, emailRegex. rewrite test_spec.
  rewrite Matches_Cat. split.
  - intros (u & s1 & -> & Hu & H1).
    apply Matches_Cat in H1 as (a & s2 & -> & Ha & H2).
    apply Matches_Cat in H2 as (d & s3 & -> & Hd & H3).
    apply Matches_Cat in H3 as (o & t & -> & Ho & Ht).
    apply Matches_Chr in Ha as ->. apply Matches_Chr in Ho as ->.
    apply Matches_Plus_Class in Hu as [Hu1 Hu2].
    apply Matches_Plus_Class in Hd as [Hd1 Hd2].
    apply Matches_Plus_Class in Ht as [Ht1 Ht2].
    exists u, d, t. simpl. tauto.
  - intros (u & d & t & -> & Hu & Hd & Ht & Fu & Fd & Ft).
    exists u, (AT :: d ++ DOT :: t). split; [reflexivity |].
    split; [now apply Matches_Plus_Class |].
    apply Matches_Cat. exists [AT], (d ++ DOT :: t). split; [reflexivity |].
    split; [now apply Matches_Chr |].
    apply Matches_Cat. exists d, (DOT :: t). split; [reflexivity |].
    split; [now apply Matches_Plus_Class |].
    apply Matches_Cat. exists [DOT], t. split; [reflexivity |].
    split; [now apply Matches_Chr | now apply Matches_Plus_Class].
Qed.

(** [isValidEmail] accepts exactly the texts made of a non-empty
    local part, [@], a non-empty label, a dot and a non-empty rest,
    none of them holding white space or [@]. *)
Theorem isValidEmail_language (e : jsstring) :
  isValidEmail e = true <->
  exists u d t,
    e = u ++ AT :: d ++ DOT :: t
    /\ u <> [] /\ d <> [] /\ t <> []
    /\ Forall (fun c => notSpaceNorAt c = true) u
    /\ Forall (fun c => notSpaceNorAt c = true) d
    /\ Forall (fun c => notSpaceNorAt c = true) t.
Proof. apply isValidEmail_spec. Qed.

Example isValidEmail_accepts :
  isValidEmail (lit "a@b.co") = true
  /\ isValidEmail (lit "first.last@mail.example.org") = true.
Proof. split; reflexivity. Qed.

Example isValidEmail_refuses :
  isValidEmail (lit "a@b") = false
  /\ isValidEmail (lit "a@@b.co") = false
  /\ isValidEmail (lit "a b@c.de") = false
  /\ isValidEmail (lit "@b.co") = false
  /\ isValidEmail (lit "a@b.") = false.
Proof. repeat split; reflexivity. Qed.

(** An accepted address, trimmed or not, has exactly one [@] and a
    dot somewhere after it. *)
Lemma isValidEmail_trim_shape (e : jsstring) :
  isValidEmail (trim e) = true ->
  countOf AT e = 1%nat
  /\ exists pre post, e = pre ++ AT :: post /\ In DOT post.
Proof.
  intros H. apply isValidEmail_spec in H
    as (u & d & t & Ht & _ & _ & _ & Fu & Fd & Ft).
  destruct (trim_split e) as (ws1 & ws2 & He & H1 & H2).
  rewrite Ht in He. split.
  - rewrite He.
    change (u ++ AT :: d ++ DOT :: t) with (u ++ [AT] ++ d ++ [DOT] ++ t).
    rewrite !countOf_app.
    rewrite (countOf_none AT ws1) by now apply whitespace_not.
    rewrite (countOf_none AT ws2) by now apply whitespace_not.
    rewrite (countOf_none AT u) by now apply notSpaceNorAt_not_at.
    rewrite (countOf_none AT d) by now apply notSpaceNorAt_not_at.
    rewrite (countOf_none AT t) by now apply notSpaceNorAt_not_at.
    reflexivity.
  - exists (ws1 ++ u), ((d ++ DOT :: t) ++ ws2). split.
    + rewrite He at 1. rewrite <- !app_assoc. simpl.
      now rewrite <- !app_assoc.
    + apply in_or_app. left. apply in_or_app. right. now left.
Qed.

Lemma emailErrors_reports (X : Externals) (b : Body) :
  errorsFor "email" (validationErrors X b)
  = report "email" notEmpty "Email is required" (trimmed (email b))
    ++ report "email" (isEmail X) "Please provide a valid email address"
         (trimmed (email b))
    ++ report "email" (isLength 0 (Some 254)) "Email is too long"
         (normalizeEmail X (trimmed (email b))).
Proof.
  rewrite validationErrors_reports, !errorsFor_app, !errorsFor_report.
  assert (Hsub :
    errorsFor "email"
      match subject b with
      | None => []
      | Some s =>
          report "subject" (isLength 0 (Some 200))
            "Subject must be less than 200 characters" (trim s)
      end = []).
  { destruct (subject b); [rewrite errorsFor_report |]; reflexivity. }
  rewrite Hsub. simpl. now rewrite !app_nil_r.
Qed.

(** C8, with the address check the spec describes. An email text
    that does not hold exactly one [@], or holds no dot after its
    [@], is reported under the field [email] as not a valid address;
    the address [a@b.co] leaves no error under [email] (its
    normalized form being no longer than 254). *)
Theorem email_pattern_enforced (X : Externals) :
  (forall (b : Body) (e : jsstring),
      email b = Some e ->
      countOf AT e <> 1%nat
      \/ ~ (exists pre post, e = pre ++ AT :: post /\ In DOT post) ->
      In {| field := "email";
            message := "Please provide a valid email address" |}
        (validationErrors (patternEmailCheck X) b))
  /\ (forall b : Body,
        email b = Some (lit "a@b.co") ->
        strLength (normalizeEmail X (lit "a@b.co")) <= 254 ->
        errorsFor "email" (validationErrors (patternEmailCheck X) b) = []).
Proof.
  split.
  - intros b e Hb Hbad.
    rewrite validationErrors_reports, Hb.
    do 3 (apply in_or_app; right). apply in_or_app; left.
    unfold report, trimmed. simpl.
    destruct (isValidEmail (trim e)) eqn:Hvalid; [| now left].
    apply isValidEmail_trim_shape in Hvalid as [Hone Hdot].
    destruct Hbad as [Hbad | Hbad]; contradiction.
  - intros b Hb Hlen.
    rewrite emailErrors_reports, Hb.
    change (trimmed (Some (lit "a@b.co"))) with (lit "a@b.co").
    rewrite !app_nil, !report_nil.
    split; [reflexivity |]. split; [reflexivity |].
    apply isLength_spec. simpl. lia.
Qed.

Lemma email_pattern_enforced_witness :
  (In {| field := "email";
         message := "Please provide a valid email address" |}
     (validationErrors (patternEmailCheck sampleExternals)
        (withEmail (lit "a@@b.co")))
   /\ In {| field := "email";
            message := "Please provide a valid email address" |}
        (validationErrors (patternEmailCheck sampleExternals)
           (withEmail (lit "a@bco"))))
  /\ errorsFor "email"
       (validationErrors (patternEmailCheck sampleExternals)
          (withEmail (lit "a@b.co"))) = [].
Proof.
  destruct (email_pattern_enforced sampleExternals) as [Hbad Hgood].
  split; [split |].
  - apply (Hbad _ (lit "a@@b.co")); [reflexivity |].
    left. vm_compute. discriminate.
  - apply (Hbad _ (lit "a@bco")); [reflexivity |].
    right. intros (pre & post & Hsplit & Hdot).
    assert (Hin : In DOT (lit "a@bco")).
    { rewrite Hsplit. apply in_or_app. right. now right. }
    vm_compute in Hin. intuition discriminate.
  - apply Hgood; [reflexivity |]. vm_compute. discriminate.
Defined.

End EmailFacts.


(* ------------------------------------------------------------------ *)
(** ** The contact limiter *)
(* ------------------------------------------------------------------ *)

Module RateLimitFacts.
Import JS Ext Http RateLimit Config Server Samples App.

Example parseInt_decimal : parseInt (Some (lit "10")) = Some (Finite 10).
Proof. reflexivity. Qed.

Example parseInt_prefix : parseInt (Some (lit "  42px")) = Some (Finite 42).
Proof. reflexivity. Qed.

Example parseInt_hex : parseInt (Some (lit "0x1F")) = Some (Finite 31).
Proof. reflexivity. Qed.

Example parseInt_negative : parseInt (Some (lit "-7")) = Some (Finite (-7)).
Proof. reflexivity. Qed.

Example parseInt_nan : parseInt (Some (lit "five")) = None.
Proof. reflexivity. Qed.

(** Beyond 2^53 the result is the nearest double, and an infinity
    from 2^1024 on. *)
Example parseInt_rounds :
  parseInt (Some (lit "9007199254740993")) = Some (Finite 9007199254740992)
  /\ parseInt (Some (lit "9007199254740995")) = Some (Finite 9007199254740996)
  /\ parseInt (Some (lit "-9007199254740995"))
     = Some (Finite (-9007199254740996))
  /\ parseInt (Some (List.repeat 57 400)) = Some (Infinity false).
Proof. repeat split; vm_compute; reflexivity. Qed.

Example RATE_LIMIT_MAX_zero :
  parseInt_or (Some (lit "0")) (Finite 5) = Finite 5
  /\ parseInt_or (Some (lit "-0")) (Finite 5) = Finite 5
  /\ parseInt_or (Some (lit "")) (Finite 5) = Finite 5.
Proof. repeat split; reflexivity. Qed.

Example RATE_LIMIT_MAX_ten : RATE_LIMIT_MAX tenEnv = Finite 10.
Proof. reflexivity. Qed.

Lemma RATE_LIMIT_MAX_default (env : Env) :
  RATE_LIMIT_MAX_env env = None -> RATE_LIMIT_MAX env = Finite 5.
Proof. unfold RATE_LIMIT_MAX. now intros ->. Qed.

(** The value given for [skip] is a boolean in every environment. *)
Lemma contactLimiter_skip (env : Env) :
  skip (contactLimiter env) = Some false.
Proof.
  unfold contactLimiter. cbn [skip].
  now destruct (bool_decide (NODE_ENV env = lit "development")).
Qed.

(** C3. The contact limiter is configured with a window of 15 minutes
    and the cap RATE_LIMIT_MAX (5 when the setting is absent), but it
    never gets to count: the value given for its [skip] option is the
    boolean [false] in every environment, the layer's call of it
    throws on every request, and the global error handler answers.
    So every request to the contact route, the first from an address
    as much as the sixth in a window or one after the window has
    elapsed, leaves the store as it was and is answered with status
    500 and code INTERNAL_ERROR: none is let through to the chains
    and the handler, and none is answered 429. *)
Theorem contact_limiter_fails
  (X : Externals) (env : Env) (transporter : option Transporter)
  (outcomes : nat -> Outcome) (store : gmap (list N) RateWindow)
  (now : Z) (req : Request) :
  (windowMs (contactLimiter env) = (15 * 60 * 1000)%Z
   /\ max (contactLimiter env) = RATE_LIMIT_MAX env
   /\ (RATE_LIMIT_MAX_env env = None -> RATE_LIMIT_MAX env = Finite 5))
  /\ limiter (contactLimiter env) store now (ip req) = (store, Threw)
  /\ postContact X env transporter outcomes store now req
     = (store,
        [ Log "Server error:";
          Respond
            {| status := 500;
               json :=
                 Failure "An unexpected error occurred" "INTERNAL_ERROR" |} ]).
Proof.
  assert (Hthrows :
    limiter (contactLimiter env) store now (ip req) = (store, Threw))
    by (unfold limiter; now rewrite contactLimiter_skip).
  split; [| split; [exact Hthrows |]].
  - split; [reflexivity |]. split; [reflexivity |].
    apply RATE_LIMIT_MAX_default.
  - unfold postContact. rewrite Hthrows. reflexivity.
Qed.

End RateLimitFacts.

(* ------------------------------------------------------------------ *)
(** ** Trimming, and the sanitizer again *)
(* ------------------------------------------------------------------ *)

Module TrimFacts.
Import JS Helpers JSFacts.

Lemma trimStart_head (s : jsstring) :
  match trimStart s with
  | [] => True
  | c :: _ => isWhiteSpace c = false
  end.
Proof.
  induction s as [|c s IH]; simpl; [exact I |].
  destruct (isWhiteSpace c) eqn:Hc; [exact IH | exact Hc].
Qed.

Lemma trimStart_fixed (s : jsstring) :
  match s with
  | [] => True
  | c :: _ => isWhiteSpace c = false
  end ->
  trimStart s = s.
Proof. destruct s as [|c s]; simpl; [reflexivity | now intros ->]. Qed.

Lemma trimStart_idem (s : jsstring) : trimStart (trimStart s) = trimStart s.
Proof. apply trimStart_fixed, trimStart_head. Qed.

(** Trimming the end removes a stretch of white space at the end. *)
Lemma trimEnd_split (t : jsstring) :
  exists ws, t = trimEnd t ++ ws /\ Forall (fun c => isWhiteSpace c = true) ws.
Proof.
  unfold trimEnd. destruct (trimStart_split (rev t)) as (ws & Hr & Hws).
  exists (rev ws). split; [| now apply Forall_rev].
  rewrite <- (rev_involutive t) at 1. rewrite Hr at 1.
  now rewrite rev_app_distr.
Qed.

Lemma trimEnd_head (t : jsstring) :
  match t with
  | [] => True
  | c :: _ => isWhiteSpace c = false
  end ->
  match trimEnd t with
  | [] => True
  | c :: _ => isWhiteSpace c = false
  end.
Proof.
  intros Ht. destruct (trimEnd_split t) as (ws & Hsplit & _).
  destruct (trimEnd t) as [|c r]; [exact I |].
  rewrite Hsplit in Ht. exact Ht.
Qed.

Lemma trim_head (s : jsstring) :
  match trim s with
  | [] => True
  | c :: _ => isWhiteSpace c = false
  end.
Proof. apply trimEnd_head, trimStart_head. Qed.

Lemma trim_last (s : jsstring) :
  match rev (trim s) with
  | [] => True
  | c :: _ => isWhiteSpace c = false
  end.
Proof.
  unfold trim, trimEnd. rewrite rev_involutive. apply trimStart_head.
Qed.

Lemma trim_idem (s : jsstring) : trim (trim s) = trim s.
Proof.
  unfold trim at 1.
  rewrite (trimStart_fixed (trim s)) by apply trim_head.
  unfold trim, trimEnd. rewrite rev_involutive. now rewrite trimStart_idem.
Qed.

Lemma replaceAll_absent (c : N) (r s : jsstring) :
  Forall (fun x => x <> c) s -> replaceAll c r s = s.
Proof.
  unfold replaceAll. induction 1 as [|x s Hx _ IH]; simpl; [reflexivity |].
  apply N.eqb_neq in Hx. now rewrite Hx, IH.
Qed.

Lemma trim_Forall (P : N -> Prop) (s : jsstring) :
  Forall P s -> Forall P (trim s).
Proof.
  intros H. destruct (trim_split s) as (ws1 & ws2 & Hs & _).
  rewrite Hs in H. apply Forall_app in H as [_ H].
  now apply Forall_app in H as [H _].
Qed.

Lemma replaceAll_apostrophe_gone (s : jsstring) :
  Forall (fun x => x <> SQUOTE) (replaceAll SQUOTE (lit "&#x27;") s).
Proof.
  unfold replaceAll. induction s as [|x s IH]; simpl; [constructor |].
  apply Forall_app. split; [| exact IH].
  destruct (N.eqb_spec x SQUOTE) as [_ | Hne].
  - repeat constructor; discriminate.
  - now repeat constructor.
Qed.

Lemma sanitized_apostrophe_free (s : jsstring) :
  Forall (fun x => x <> SQUOTE) (sanitizeString s).
Proof.
  unfold sanitizeString.
  change (lit ">") with [GT]. change (lit "<") with [LT].
  rewrite !SanitizerFacts.replaceAll_self.
  apply trim_Forall, replaceAll_apostrophe_gone.
Qed.

(** Sanitizing twice is sanitizing once. *)
Theorem sanitizeInput_idempotent (v : jsval) :
  sanitizeInput (sanitizeInput v) = sanitizeInput v.
Proof.
  destruct v as [| | b | z | s | r]; try reflexivity.
  simpl. f_equal.
  rewrite (SanitizerFacts.sanitizeString_apostrophe_only (sanitizeString s)).
  rewrite replaceAll_absent by apply sanitized_apostrophe_free.
  rewrite SanitizerFacts.sanitizeString_apostrophe_only. apply trim_idem.
Qed.

(** The sanitizer's result neither starts nor ends with white space. *)
Theorem sanitizeString_edges (s : jsstring) :
  match sanitizeString s with
  | [] => True
  | c :: _ => isWhiteSpace c = false
  end
  /\ match rev (sanitizeString s) with
     | [] => True
     | c :: _ => isWhiteSpace c = false
     end.
Proof. unfold sanitizeString. split; [apply trim_head | apply trim_last]. Qed.

End TrimFacts.

(* ------------------------------------------------------------------ *)
(** ** The contact handler, whatever happens *)
(* ------------------------------------------------------------------ *)

Module RouteFacts.
Import JS Ext Helpers Validator Http RateLimit Config Mail Server Samples.
Import PipelineFacts Pipeline.

Section AnyRequest.
Context (X : Externals) (env : Env) (transporter : option Transporter).
Context (outcomes : nat -> Outcome).
Context (req : Request) (errors : list FieldError).

(** The contact handler answers exactly once, whatever the request,
    the errors of the chains, the transporter and the dispatcher; the
    status is one of 200, 400, 500 and 503; it is 200 exactly when
    two messages were handed to the dispatcher, and [success] is true
    exactly then; a single message handed over means the answer is
    500; and never more than two are. *)
Theorem contact_answered_once :
  let t := run outcomes (contactHandler X env transporter outcomes req errors) in
  exists r,
    responses t = [r]
    /\ In (status r) [200; 400; 500; 503]%nat
    /\ (status r = 200%nat <-> length (sends t) = 2%nat)
    /\ (success r = true <-> status r = 200%nat)
    /\ (length (sends t) = 1%nat -> status r = 500%nat)
    /\ (length (sends t) <= 2)%nat.
Proof.
  intros t. subst t. rewrite contactHandler_run.
  destruct errors as [|err errs].
  2:{ eexists. split; [reflexivity |]. simpl.
      repeat split; try tauto; try discriminate; lia. }
  destruct transporter as [tr|].
  2:{ eexists. split; [reflexivity |]. simpl.
      repeat split; try tauto; try discriminate; lia. }
  destruct (msg (body req)) as [message|].
  2:{ eexists. split; [reflexivity |]. simpl.
      repeat split; try tauto; try discriminate; lia. }
  destruct (containsSpam X message).
  { eexists. split; [reflexivity |]. simpl.
    repeat split; try tauto; try discriminate; lia. }
  simpl. destruct (outcomes 0%nat) as [info | e].
  - destruct (outcomes 1%nat); eexists; (split; [reflexivity |]); simpl;
      repeat split; try tauto; try discriminate; lia.
  - destruct (contactCatch_response e) as (r & Hr & H500 & Hfail & _).
    rewrite Hr. exists r. simpl. rewrite H500, Hfail.
    repeat split; try tauto; try discriminate; lia.
Qed.

(** Mail goes nowhere else: every message the handler hands to the
    dispatcher is either addressed to the operator's address, with
    the submitter's email (as the chains have left it) as reply-to,
    or addressed to the submitter's email, with no reply-to. *)
Theorem mail_recipients :
  let t := run outcomes (contactHandler X env transporter outcomes req errors) in
  let submitter := toVal (email (body req)) in
  Forall
    (fun m =>
       (to m = JStr (CONTACT_EMAIL env) /\ replyTo m = Some submitter)
       \/ (to m = submitter /\ replyTo m = None))
    (sends t).
Proof.
  intros t submitter. subst t submitter.
  destruct (contactHandler_shape X env transporter outcomes req errors)
    as [[Hnone _] | [(message & e & _ & Ht) | (message & info & _ & Ht)]].
  - rewrite Hnone. constructor.
  - rewrite Ht. destruct (contactCatch_response e) as (r & Hr & _).
    rewrite Hr. simpl.
    constructor; [| constructor]. left. now split.
  - rewrite Ht, sends_app.
    destruct (settle_quiet outcomes [1%nat]) as [-> _].
    simpl.
    constructor; [| constructor; [| constructor]].
    + left. now split.
    + right. now split.
Qed.

End AnyRequest.

End RouteFacts.

(* ------------------------------------------------------------------ *)
(** ** The validation chains again *)
(* ------------------------------------------------------------------ *)

Module ChainFacts.
Import JS Ext Helpers Validator Client Samples JSFacts TrimFacts ValidatorFacts.

Lemma report_length (p : string) (ok : jsstring -> bool) (text : string)
  (v : jsstring) : (length (report p ok text v) <= 1)%nat.
Proof. unfold report. destruct (ok v); simpl; lia. Qed.

Lemma report_field (p : string) (ok : jsstring -> bool) (text : string)
  (v : jsstring) : Forall (fun e => field e = p) (report p ok text v).
Proof. unfold report. destruct (ok v); repeat constructor. Qed.

Section AnyBody.
Context (X : Externals) (b : Body).

Lemma validate_fst :
  fst (validate X b)
  = {| name := Some (escape X (trimmed (name b)));
       email := Some (normalizeEmail X (trimmed (email b)));
       subject := option_map (fun s => escape X (trim s)) (subject b);
       msg := Some (escape X (trimmed (msg b))) |}.
Proof.
  unfold validate, runChain, trimmed.
  destruct (name b), (email b), (subject b), (msg b); reflexivity.
Qed.

(** The errors come grouped by field, in the order name, email,
    subject, message, and they name no other field: at most two for
    the name, three for the email, one for the subject and two for
    the message. *)
Theorem validationErrors_grouped :
  let errs := validationErrors X b in
  errs = errorsFor "name" errs ++ errorsFor "email" errs
           ++ errorsFor "subject" errs ++ errorsFor "message" errs
  /\ (length (errorsFor "name" errs) <= 2)%nat
  /\ (length (errorsFor "email" errs) <= 3)%nat
  /\ (length (errorsFor "subject" errs) <= 1)%nat
  /\ (length (errorsFor "message" errs) <= 2)%nat.
Proof.
  intros errs. subst errs. rewrite validationErrors_reports.
  set (n1 := report "name" notEmpty _ _).
  set (n2 := report "name" (isLength 2 (Some 100)) _ _).
  set (e1 := report "email" notEmpty _ _).
  set (e2 := report "email" (isEmail X) _ _).
  set (e3 := report "email" (isLength 0 (Some 254)) _ _).
  set (m1 := report "message" notEmpty _ _).
  set (m2 := report "message" (isLength 10 (Some 5000)) _ _).
  set (s1 := match subject b with None => [] | Some s => _ end).
  assert (Hs : forall f,
    errorsFor f s1 = if String.eqb "subject" f then s1 else []).
  { intros f. subst s1. destruct (subject b).
    - apply errorsFor_report.
    - now destruct (String.eqb "subject" f). }
  assert (Hs1 : (length s1 <= 1)%nat).
  { subst s1. destruct (subject b); [apply report_length | simpl; lia]. }
  pose proof (report_length "name" notEmpty "Name is required"
                (trimmed (name b))) as Hn1.
  pose proof (report_length "name" (isLength 2 (Some 100))
                "Name must be between 2 and 100 characters"
                (trimmed (name b))) as Hn2.
  pose proof (report_length "email" notEmpty "Email is required"
                (trimmed (email b))) as He1.
  pose proof (report_length "email" (isEmail X)
                "Please provide a valid email address"
                (trimmed (email b))) as He2.
  pose proof (report_length "email" (isLength 0 (Some 254))
                "Email is too long"
                (normalizeEmail X (trimmed (email b)))) as He3.
  pose proof (report_length "message" notEmpty "Message is required"
                (trimmed (msg b))) as Hm1.
  pose proof (report_length "message" (isLength 10 (Some 5000))
                "Message must be between 10 and 5000 characters"
                (trimmed (msg b))) as Hm2.
  fold n1 in Hn1. fold n2 in Hn2. fold e1 in He1. fold e2 in He2.
  fold e3 in He3. fold m1 in Hm1. fold m2 in Hm2.
  rewrite !errorsFor_app.
  subst n1 n2 e1 e2 e3 m1 m2. rewrite !errorsFor_report, !Hs. simpl.
  rewrite ?app_nil_r, ?length_app. simpl.
  repeat split; try lia.
  now rewrite <- !app_assoc.
Qed.

End AnyBody.

Lemma trimmed_trim (s : jsstring) : trimmed (Some (trim s)) = trimmed (Some s).
Proof. unfold trimmed. simpl. apply trim_idem. Qed.

(** The server reaches the same verdict, and hands the same body to
    the handler, whether or not the page has trimmed the values it
    sends. *)
Theorem validate_after_client_trim (X : Externals) (v : FormValues) :
  validate X (toBody (formData v)) = validate X (toBody v).
Proof.
  apply injective_projections.
  - rewrite !validate_fst. simpl. unfold trimmed. simpl.
    now rewrite !trim_idem.
  - change (validationErrors X (toBody (formData v))
            = validationErrors X (toBody v)).
    rewrite !validationErrors_reports. simpl.
    now rewrite !trimmed_trim, !trim_idem.
Qed.

End ChainFacts.

(* ------------------------------------------------------------------ *)
(** ** The generated HTML and the transporter's settings *)
(* ------------------------------------------------------------------ *)

Module ComposerFacts.
Import JS Helpers Config Mail Samples JSFacts TrimFacts.

Lemma interp_sanitized_free (v : option jsstring) :
  Forall (fun c => c <> SQUOTE) (interp (sanitizeInput (toVal v))).
Proof.
  destruct v as [s|]; simpl.
  - apply sanitized_apostrophe_free.
  - repeat constructor; discriminate.
Qed.

Lemma replaceAll_keeps_free (c : N) (r s : jsstring) (P : N -> Prop) :
  Forall P r -> Forall P s -> Forall P (replaceAll c r s).
Proof.
  intros Hr. unfold replaceAll. induction 1 as [|x s Hx _ IH]; simpl.
  - constructor.
  - apply Forall_app. split; [| exact IH].
    destruct (x =? c); [exact Hr | now repeat constructor].
Qed.

(** Whatever the fields hold, no text interpolated into either HTML
    body holds a raw apostrophe: every field goes through the
    sanitizer first, and the line breaks put into the message bring
    none. *)
Theorem templates_apostrophe_free
  (name email subject : option jsstring) (message : jsstring) :
  Forall
    (fun p => match p with
              | Markup _ => True
              | Text s => Forall (fun c => c <> SQUOTE) s
              end)
    (generateEmailTemplate name email subject message)
  /\ Forall
       (fun p => match p with
                 | Markup _ => True
                 | Text s => Forall (fun c => c <> SQUOTE) s
                 end)
       (generateAutoReplyTemplate name).
Proof.
  split; unfold generateEmailTemplate, generateAutoReplyTemplate;
    repeat (constructor; simpl; try exact I);
    try apply interp_sanitized_free.
  - apply sanitized_apostrophe_free.
  - apply replaceAll_keeps_free; [| apply sanitized_apostrophe_free].
    repeat constructor; discriminate.
Qed.

Lemma parseInt_or_nonzero (v : option jsstring) (d : number) :
  d <> Finite 0 -> parseInt_or v d <> Finite 0.
Proof.
  intros Hd. unfold parseInt_or.
  destruct (parseInt v) as [[[|p|p]|neg]|]; try exact Hd; discriminate.
Qed.

Lemma falsy_false_text (v : option jsstring) :
  falsy v = false -> default [] v <> [].
Proof. destruct v as [[|c s]|]; simpl; congruence. Qed.

(** The contact cap is never zero, whatever the environment holds
    (it is 5 when RATE_LIMIT_MAX is not set, is no number or is
    zero); and a transporter, when there is one, has a host, a user
    and a password that are not empty and a port that is not zero:
    the host, user and password are those of the environment, the
    port is 587 when SMTP_PORT is not set, the connection is secure
    only for SMTP_SECURE being exactly [true], and the service is
    gmail exactly for the host smtp.gmail.com. *)
Theorem transporter_settings (env : Env) :
  (RATE_LIMIT_MAX env <> Finite 0
   /\ (parseInt (RATE_LIMIT_MAX_env env) = None
       \/ parseInt (RATE_LIMIT_MAX_env env) = Some (Finite 0) ->
       RATE_LIMIT_MAX env = Finite 5))
  /\ (forall t : Transporter,
        createTransporter env = Some t ->
        (Some (host t) = SMTP_HOST env /\ host t <> [])
        /\ (Some (auth_user t) = SMTP_USER env /\ auth_user t <> [])
        /\ (Some (auth_pass t) = SMTP_PASS env /\ auth_pass t <> [])
        /\ (port t <> Finite 0
            /\ (SMTP_PORT env = None -> port t = Finite 587))
        /\ (secure t = true <-> SMTP_SECURE env = Some (lit "true"))
        /\ (service t = Some "gmail"%string
            <-> host t = lit "smtp.gmail.com")).
Proof.
  split.
  - split; [apply parseInt_or_nonzero; discriminate |].
    unfold RATE_LIMIT_MAX, parseInt_or. now intros [-> | ->].
  - unfold createTransporter. intros t Ht.
    destruct (falsy (SMTP_HOST env)) eqn:Hh; [discriminate |].
    destruct (falsy (SMTP_USER env)) eqn:Hu; [discriminate |].
    destruct (falsy (SMTP_PASS env)) eqn:Hp; [discriminate |].
    simpl in Ht. injection Ht as <-. simpl.
    split; [split; [| now apply falsy_false_text] |].
    { destruct (SMTP_HOST env) as [[|c s]|]; now try discriminate. }
    split; [split; [| now apply falsy_false_text] |].
    { destruct (SMTP_USER env) as [[|c s]|]; now try discriminate. }
    split; [split; [| now apply falsy_false_text] |].
    { destruct (SMTP_PASS env) as [[|c s]|]; now try discriminate. }
    split; [split; [apply parseInt_or_nonzero; discriminate | now intros ->] |].
    split; [apply bool_decide_eq_true |].
    case_bool_decide as Hg; split; congruence.
Qed.

Lemma transporter_settings_witness :
  RATE_LIMIT_MAX smtpEnv = Finite 5
  /\ exists t,
       createTransporter smtpEnv = Some t
       /\ port t = Finite 587 /\ secure t = false /\ service t = None.
Proof.
  destruct (transporter_settings smtpEnv) as [[_ Hcap] Hsettings].
  split; [apply Hcap; now left |].
  destruct (createTransporter smtpEnv) as [t|] eqn:Ht; [| discriminate].
  destruct (Hsettings t eq_refl)
    as (_ & _ & _ & [_ Hport] & Hsec & Hsvc).
  exists t. split; [reflexivity |]. split; [now apply Hport |].
  split.
  - apply not_true_is_false. intros Hs. apply Hsec in Hs. discriminate.
  - injection Ht as <-. reflexivity.
Defined.

End ComposerFacts.

(* ------------------------------------------------------------------ *)
(** ** Origins *)
(* ------------------------------------------------------------------ *)

Module CorsFacts.
Import JS Http Cors JSFacts.

Lemma indexOfFound_spec (l : list jsstring) (o : jsstring) :
  indexOfFound l o = true <-> In o l.
Proof.
  unfold indexOfFound. rewrite existsb_exists. split.
  - intros (a & Ha & Heq). apply bool_decide_eq_true in Heq. now subst.
  - intros Ho. exists o. split; [exact Ho | now apply bool_decide_eq_true].
Qed.

Lemma origin_listed (s : Settings) (x : jsstring) :
  In x (allowedOrigins s) -> origin s (Some x) = Allowed.
Proof.
  intros Hx. unfold origin. destruct (falsy (Some x)); [reflexivity |].
  change (default [] (Some x)) with x.
  apply indexOfFound_spec in Hx. rewrite Hx.
  now destruct (_ && _).
Qed.

(** A request without an origin, and one from the configured
    frontend or from one of the four local addresses, is allowed in
    every environment; outside development nothing else is. *)
Theorem origin_allowlist (s : Settings) (o : option jsstring) :
  (falsy o = true -> origin s o = Allowed)
  /\ (forall x, o = Some x -> In x (allowedOrigins s) -> origin s o = Allowed)
  /\ (NODE_ENV s <> lit "development" ->
      origin s o = Allowed ->
      falsy o = true \/ exists x, o = Some x /\ In x (allowedOrigins s)).
Proof.
  split; [| split].
  - intros Ho. unfold origin. now rewrite Ho.
  - intros x -> Hx. now apply origin_listed.
  - intros Hprod. unfold origin.
    destruct (falsy o) eqn:Ho; [now left |].
    rewrite (bool_decide_eq_false_2 _ Hprod). cbn [andb].
    destruct (indexOfFound (allowedOrigins s) (default [] o)) eqn:Hidx;
      [| intros H; discriminate H].
    intros _. right. apply indexOfFound_spec in Hidx.
    destruct o as [x|]; [| discriminate]. now exists x.
Qed.

Lemma origin_allowlist_witness :
  let production :=
    {| NODE_ENV_env := Some (lit "production");
       FRONTEND_URL_env := Some (lit "https://portfolio.example") |} in
  origin production (Some (lit "https://portfolio.example")) = Allowed
  /\ origin production (Some (lit "http://localhost:3000")) = Allowed
  /\ origin production (Some (lit "https://elsewhere.example"))
     = NotAllowed "Not allowed by CORS".
Proof.
  intros production.
  pose proof (origin_allowlist production
                (Some (lit "https://portfolio.example"))) as (_ & H1 & _).
  pose proof (origin_allowlist production
                (Some (lit "http://localhost:3000"))) as (_ & H2 & _).
  split; [| split].
  - apply (H1 _ eq_refl). now left.
  - apply (H2 _ eq_refl). right. right. now left.
  - reflexivity.
Defined.

(** In development, which is also what an unset NODE_ENV means, any
    origin that holds the text [localhost] or [127.0.0.1] anywhere is
    allowed; and whatever an environment allows, development allows
    too. *)
Theorem origin_development (s : Settings) (o : option jsstring) :
  let dev :=
    {| NODE_ENV_env := None; FRONTEND_URL_env := FRONTEND_URL_env s |} in
  (forall pre post,
      origin dev (Some (pre ++ lit "localhost" ++ post)) = Allowed
      /\ origin dev (Some (pre ++ lit "127.0.0.1" ++ post)) = Allowed)
  /\ (origin s o = Allowed -> origin dev o = Allowed).
Proof.
  intros dev. split.
  - intros pre post. unfold origin.
    assert (H1 : includes (pre ++ lit "localhost" ++ post) (lit "localhost")
                 = true) by (apply includes_spec; eauto).
    assert (H2 : includes (pre ++ lit "127.0.0.1" ++ post) (lit "127.0.0.1")
                 = true) by (apply includes_spec; eauto).
    split.
    + destruct (falsy _); [reflexivity |].
      change (default [] (Some ?x)) with x.
      now rewrite H1.
    + destruct (falsy _); [reflexivity |].
      change (default [] (Some ?x)) with x.
      rewrite H2. now rewrite orb_true_r.
  - unfold origin. destruct (falsy o); [reflexivity |].
    change (allowedOrigins dev) with (allowedOrigins s).
    destruct (indexOfFound (allowedOrigins s) (default [] o)).
    + intros _. now destruct (_ && _).
    + change (bool_decide (NODE_ENV dev = lit "development")) with true.
      destruct (bool_decide (NODE_ENV s = lit "development"));
        cbn [andb]; [| intros H; discriminate H].
      now destruct (_ || _).
Qed.

Lemma origin_development_witness :
  origin {| NODE_ENV_env := None; FRONTEND_URL_env := None |}
    (Some (lit "https://localhost.elsewhere.example")) = Allowed.
Proof.
  exact (proj1 (proj1 (origin_development
                         {| NODE_ENV_env := None; FRONTEND_URL_env := None |}
                         None)
                  (lit "https://") (lit ".elsewhere.example"))).
Defined.


End CorsFacts.

(* ------------------------------------------------------------------ *)
(** ** The theme *)
(* ------------------------------------------------------------------ *)

Module ThemeFacts.
Import JS Theme.

Lemma toggleTheme_chosen (p : Page) :
  dataTheme (toggleTheme p) = storedTheme (toggleTheme p)
  /\ (dataTheme (toggleTheme p) = Some (lit "dark")
      \/ dataTheme (toggleTheme p) = Some (lit "light")).
Proof.
  unfold toggleTheme. simpl. split; [reflexivity |].
  destruct (bool_decide _); [now right | now left].
Qed.

(** The theme a visitor has chosen survives a reload: the page loads
    with the theme the last toggle set, whatever the markup carries
    and whatever the system prefers. *)
Theorem theme_survives_reload (p : Page) (markup : option jsstring)
  (systemPrefersDark : bool) :
  load markup systemPrefersDark (storedTheme (toggleTheme p))
  = toggleTheme p.
Proof.
  unfold load, initTheme, toggleTheme. simpl.
  now destruct (bool_decide _).
Qed.

(** Toggling alternates between dark and light: from dark or light,
    two toggles bring the theme back; from anything else the first
    toggle sets dark, and from then on it alternates. *)
Theorem toggle_alternates (p : Page) :
  toggleTheme (toggleTheme (toggleTheme p)) = toggleTheme p
  /\ dataTheme (toggleTheme (toggleTheme p))
     = Some (if bool_decide (dataTheme p = Some (lit "dark"))
             then lit "dark" else lit "light")
  /\ dataTheme (toggleTheme p)
     = Some (if bool_decide (dataTheme p = Some (lit "dark"))
             then lit "light" else lit "dark").
Proof.
  unfold toggleTheme. simpl.
  destruct (bool_decide (dataTheme p = Some (lit "dark"))); now repeat split.
Qed.

Lemma step_keeps_choice (p : Page) (e : Event) :
  dataTheme p = storedTheme p ->
  (dataTheme p = Some (lit "dark") \/ dataTheme p = Some (lit "light")) ->
  dataTheme (step p e) = storedTheme (step p e)
  /\ (dataTheme (step p e) = Some (lit "dark")
      \/ dataTheme (step p e) = Some (lit "light"))
  /\ (e <> Toggle -> step p e = p).
Proof.
  intros Heq Hchoice. destruct e as [d | | m]; simpl.
  - unfold initTheme. rewrite <- Heq.
    destruct Hchoice as [H | H]; rewrite H; simpl;
      (split; [reflexivity |]); (split; [tauto |]); intros _;
      destruct p; simpl in *; congruence.
  - destruct (toggleTheme_chosen p) as [H1 H2].
    split; [exact H1 |]. split; [exact H2 | congruence].
  - unfold systemThemeChanged. rewrite <- Heq.
    destruct Hchoice as [H | H]; rewrite H; simpl; tauto.
Qed.

(** Once the visitor has toggled, the attribute always equals the
    stored choice and is dark or light, whatever happens next; and
    only another toggle changes it: changes of the system's scheme
    and further initialisations leave the page as it is. *)
Theorem choice_is_kept (p : Page) (es : list Event) :
  let q := run (toggleTheme p) es in
  dataTheme q = storedTheme q
  /\ (dataTheme q = Some (lit "dark") \/ dataTheme q = Some (lit "light"))
  /\ (Forall (fun e => e <> Toggle) es -> q = toggleTheme p).
Proof.
  unfold run.
  destruct (toggleTheme_chosen p) as [Heq Hchoice].
  revert Heq Hchoice. generalize (toggleTheme p) as q0.
  induction es as [|e es IH]; intros q0 Heq Hchoice; simpl.
  - tauto.
  - destruct (step_keeps_choice q0 e Heq Hchoice) as (H1 & H2 & H3).
    destruct (IH (step q0 e) H1 H2) as (I1 & I2 & I3).
    split; [exact I1 |]. split; [exact I2 |].
    intros Hno. inversion Hno as [|? ? He Hes]; subst.
    rewrite (I3 Hes). now apply H3.
Qed.

Lemma choice_is_kept_witness :
  run (toggleTheme {| dataTheme := None; storedTheme := None |})
    [SystemChanged false; Init true; SystemChanged true]
  = {| dataTheme := Some (lit "dark"); storedTheme := Some (lit "dark") |}.
Proof.
  apply (proj2 (proj2 (choice_is_kept
                         {| dataTheme := None; storedTheme := None |}
                         [SystemChanged false; Init true; SystemChanged true]))).
  repeat constructor; discriminate.
Defined.

(** Before any toggle and with nothing stored, the theme follows the
    system: a dark scheme sets dark at load, and every change of the
    scheme sets the theme it announces. *)
Theorem theme_follows_system (markup : option jsstring) (d m : bool) :
  dataTheme (load markup true None) = Some (lit "dark")
  /\ dataTheme (load markup false None) = markup
  /\ dataTheme (systemThemeChanged m (load markup d None))
     = Some (if m then lit "dark" else lit "light")
  /\ storedTheme (systemThemeChanged m (load markup d None)) = None.
Proof.
  unfold load, initTheme, systemThemeChanged. simpl.
  destruct d; simpl; now repeat split.
Qed.

End ThemeFacts.

(* ------------------------------------------------------------------ *)
(** ** throttle and debounce *)
(* ------------------------------------------------------------------ *)

Module TimingFacts.
Import Timing.

Lemma timerFirings_cons {A} (e : ThrottleEvent A) (es : list (ThrottleEvent A)) :
  timerFirings (e :: es)
  = ((match e with TimerFires => 1 | _ => 0 end) + timerFirings es)%nat.
Proof. unfold timerFirings. now destruct e. Qed.

(** While [func] behaves, the closure is in one of three states:
    idle, running [func] once, or throttled with one timer set; and
    each run of [func] beyond the first is paid for by a timer. *)
Lemma throttleRun_orderly {A} (es : list (ThrottleEvent A)) (st : Throttle) :
  orderly st es = true ->
  (running st + timers st <= 1)%nat ->
  (inThrottle st = true <-> timers st = 1%nat) ->
  (running (fst (throttleRun st es)) + timers (fst (throttleRun st es)) <= 1)%nat
  /\ (inThrottle (fst (throttleRun st es)) = true
      <-> timers (fst (throttleRun st es)) = 1%nat)
  /\ (length (snd (throttleRun st es)) + (running st + timers st)
      <= 1 + timerFirings es)%nat.
Proof.
  revert st. induction es as [|e es IH]; intros st Hord Hle Hiff.
  - simpl. cbv [timerFirings]. simpl. repeat split; try tauto; lia.
  - cbn [orderly] in Hord. apply andb_true_iff in Hord as [He Hrest].
    cbn [throttleRun]. rewrite timerFirings_cons.
    destruct (throttleStep st e) as [st1 out] eqn:Hstep.
    cbn [fst] in Hrest.
    assert (H1 : (running st1 + timers st1 <= 1)%nat
                 /\ (inThrottle st1 = true <-> timers st1 = 1%nat)
                 /\ ((match out with Some _ => 1 | None => 0 end)
                     + (running st + timers st)
                     <= (running st1 + timers st1)
                        + match e with TimerFires => 1 | _ => 0 end)%nat).
    { destruct st as [[] [|[|t]] [|[|r]]]; cbn in Hle, Hiff; try lia;
        try (exfalso; destruct Hiff as [Hi1 Hi2];
             first [ specialize (Hi1 eq_refl); discriminate
                   | specialize (Hi2 eq_refl); discriminate ]);
        destruct e as [a | [|] |]; cbn in He, Hstep; try discriminate;
        injection Hstep as <- <-; cbn;
        (split; [lia |]); (split; [| lia]);
        split; intros; try discriminate; reflexivity. }
    destruct H1 as (Hle1 & Hiff1 & Hpay).
    destruct (IH st1 Hrest Hle1 Hiff1) as (Hle2 & Hiff2 & Hbound).
    destruct (throttleRun st1 es) as [st2 outs]. cbn [fst snd] in *.
    split; [exact Hle2 |]. split; [exact Hiff2 |].
    destruct out; cbn [length]; lia.
Qed.

(** A function wrapped by [throttle] that never throws and never
    calls the wrapper again runs at most once more than a timer has
    been due, whatever the calls; at most one timer is pending, and
    the flag is set exactly while one is. *)
Theorem throttle_once_per_period {A} (es : list (ThrottleEvent A)) :
  orderly throttleStart es = true ->
  (length (snd (throttleRun throttleStart es)) <= 1 + timerFirings es)%nat
  /\ (timers (fst (throttleRun throttleStart es)) <= 1)%nat
  /\ (inThrottle (fst (throttleRun throttleStart es)) = true
      <-> timers (fst (throttleRun throttleStart es)) = 1%nat).
Proof.
  intros Hord.
  destruct (throttleRun_orderly es throttleStart Hord) as (Hle & Hiff & Hb).
  { simpl. lia. }
  { simpl. split; discriminate. }
  simpl in Hb. split; [lia |]. split; [lia | exact Hiff].
Qed.

Lemma throttle_once_per_period_witness :
  let es := [ Call 1%nat; Ends Returns; Call 2%nat; TimerFires;
              Call 3%nat; Ends Returns; Call 4%nat ] in
  snd (throttleRun throttleStart es) = [1%nat; 3%nat]
  /\ (length (snd (throttleRun throttleStart es)) <= 1 + timerFirings es)%nat.
Proof.
  intros es. split; [reflexivity |].
  apply (throttle_once_per_period es). reflexivity.
Defined.

Lemma throttleRun_blocked {A} (calls : list A) (st : Throttle)
  (tail : list (ThrottleEvent A)) :
  inThrottle st = true ->
  throttleRun st (map Call calls ++ tail) = throttleRun st tail.
Proof.
  intros Hin. induction calls as [|a calls IH]; simpl; [reflexivity |].
  rewrite Hin. simpl. rewrite IH. now destruct (throttleRun st tail).
Qed.

Lemma throttleRun_throwing {A} (calls : list A) (st : Throttle) :
  inThrottle st = false ->
  throttleRun st (flat_map (fun a => [Call a; Ends Throws]) calls)
  = (st, calls).
Proof.
  intros Hin. induction calls as [|a calls IH]; simpl; [reflexivity |].
  rewrite Hin. simpl.
  replace {| inThrottle := false; timers := timers st; running := running st |}
    with st by (destruct st; simpl in *; now subst).
  now rewrite IH.
Qed.

(** Of a burst of calls to a throttled function whose first run has
    returned, with no timer due in between, only the first runs
    [func]; once the timer has been due, the next call runs it again.
    A [func] that throws is not throttled at all: the flag is set
    only after [func] has returned, so every call of such a burst
    runs it. *)
Theorem throttle_burst {A} (first next : A) (rest : list A) :
  snd (throttleRun throttleStart
         (Call first :: Ends Returns :: map Call rest))
  = [first]
  /\ snd (throttleRun throttleStart
            (Call first :: Ends Returns
               :: map Call rest ++ [TimerFires; Call next; Ends Returns]))
     = [first; next]
  /\ snd (throttleRun throttleStart
            (flat_map (fun a => [Call a; Ends Throws]) (first :: rest)))
     = first :: rest.
Proof.
  split; [| split].
  - simpl.
    rewrite <- (app_nil_r (map Call rest)).
    now rewrite throttleRun_blocked by reflexivity.
  - simpl. now rewrite throttleRun_blocked by reflexivity.
  - now rewrite throttleRun_throwing by reflexivity.
Qed.

(** A burst of calls followed by the timer running out runs [func]
    once, with the arguments of the last call, and leaves no timer;
    no call runs [func] itself. *)
Theorem debounce_last_call {A} (calls : list A) (last : A) (st : Debounce A) :
  debounceRun st (map Invoke (calls ++ [last]) ++ [Timeout])
  = (None, map (fun _ => None) (calls ++ [last]) ++ [Some last]).
Proof.
  revert st. induction calls as [|a calls IH]; intros st; simpl.
  - reflexivity.
  - now rewrite IH.
Qed.

End TimingFacts.

(* ------------------------------------------------------------------ *)
(** ** The contact form of the page *)
(* ------------------------------------------------------------------ *)

Module ClientFacts.
Import JS Ext Helpers Validator Http RateLimit Config Mail Server Client.
Import PipelineFacts Pipeline ValidatorFacts.

Lemma text_or_filled (a : option string) (b : string) :
  b <> EmptyString -> text_or a b <> EmptyString.
Proof.
  intros Hb. destruct a as [[|c s]|]; simpl;
    [exact Hb | discriminate | exact Hb].
Qed.

Lemma errorMessageFor_filled (data : Json) :
  errorMessageFor data <> EmptyString.
Proof.
  unfold errorMessageFor. cbv zeta.
  repeat (destruct (bool_decide _); cbn [orb]); try discriminate.
  apply text_or_filled. discriminate.
Qed.

Lemma isEmpty_short (s : jsstring) (k : nat) :
  isEmpty s || (length s <? S k)%nat = (length s <? S k)%nat.
Proof. now destruct s. Qed.

Lemma isEmpty_unmatched (s : jsstring) :
  isEmpty s || negb (Regex.test emailRegex s) = negb (isValidEmail s).
Proof. now destruct s. Qed.

Lemma clientCheck_text (f : FormValues) (text : string) :
  clientCheck f = Some text -> text <> EmptyString.
Proof.
  unfold clientCheck.
  repeat (destruct (_ || _)); intros [= <-]; discriminate.
Qed.

(** The checks of the page let a form through exactly when the
    (trimmed) name has at least 2 characters, the email matches the
    pattern of the server's [isValidEmail], and the message has at
    least 10 characters; the name is checked first, then the email,
    then the message. *)
Theorem clientCheck_passes (f : FormValues) :
  (clientCheck f = None
   <-> (2 <= length (nameValue f))%nat
       /\ isValidEmail (emailValue f) = true
       /\ (10 <= length (messageValue f))%nat)
  /\ ((length (nameValue f) < 2)%nat ->
      clientCheck f
      = Some "Please enter a valid name (at least 2 characters)"%string)
  /\ ((2 <= length (nameValue f))%nat ->
      isValidEmail (emailValue f) = false ->
      clientCheck f = Some "Please enter a valid email address"%string).
Proof.
  unfold clientCheck.
  rewrite !isEmpty_short, isEmpty_unmatched.
  destruct (Nat.ltb_spec (length (nameValue f)) 2) as [Hn | Hn];
    destruct (isValidEmail (emailValue f)); cbn [negb];
    destruct (Nat.ltb_spec (length (messageValue f)) 10) as [Hm | Hm];
    repeat split; intros; try discriminate; try lia;
    repeat match goal with H : _ /\ _ |- _ => destruct H end;
    try discriminate; try lia; try reflexivity.
Qed.

Section AnyServer.
Context (server : Body -> FetchResult) (v : FormValues).

(** One submit of the form, whatever the server does: at most one
    request is sent, none unless the page's checks pass, and its body
    holds the trimmed values; exactly one message is shown and its
    text is never empty; it is the success message exactly when the
    checks passed and the server answered with a status in 200..299,
    and the form is reset exactly then; the button is put in the
    loading state exactly when a request is sent, and is always taken
    out of it afterwards. *)
Theorem submit_outcomes :
  let acts := actions (onSubmit server v) in
  sentBodies acts
  = match clientCheck (formData v) with
    | Some _ => []
    | None => [toBody (formData v)]
    end
  /\ (exists kind text,
        shown acts = [(kind, text)]
        /\ text <> EmptyString
        /\ (kind = SuccessMessage
            <-> clientCheck (formData v) = None
                /\ exists r, server (toBody (formData v)) = Answered r
                             /\ ok r = true)
        /\ resets acts
           = match kind with SuccessMessage => 1 | ErrorMessage => 0 end%nat)
  /\ loading acts
     = match clientCheck (formData v) with
       | Some _ => []
       | None => [true; false]
       end.
Proof.
  unfold onSubmit.
  destruct (clientCheck (formData v)) as [text|] eqn:Hc.
  - simpl. split; [reflexivity |]. split; [| reflexivity].
    exists ErrorMessage, text. split; [reflexivity |].
    split; [now apply clientCheck_text with (f := formData v) |].
    split; [| reflexivity].
    split; [discriminate | intros [H _]; discriminate].
  - destruct (server (toBody (formData v))) as [m | r] eqn:Hs;
      [| destruct (ok r) eqn:Hok]; cbn -[text_or errorMessageFor];
      (split; [reflexivity |]); (split; [| reflexivity]).
    + eexists _, _. split; [reflexivity |].
      split; [apply text_or_filled; discriminate |].
      split; [| reflexivity].
      split; [discriminate | intros [_ (r & Hr & _)]; discriminate].
    + eexists _, _. split; [reflexivity |].
      split; [apply text_or_filled; discriminate |].
      split; [| reflexivity].
      split; [intros _; split; [reflexivity | now exists r] | reflexivity].
    + eexists _, _. split; [reflexivity |].
      split; [apply errorMessageFor_filled |].
      split; [| reflexivity].
      split; [discriminate |].
      intros [_ (r' & Hr & Hok')]. injection Hr as <-. congruence.
Qed.

End AnyServer.

Lemma concat_filled (sep : string) (x : string) (xs : list string) :
  x <> EmptyString -> String.concat sep (x :: xs) <> EmptyString.
Proof.
  intros Hx. destruct x as [|c x]; [contradiction |].
  simpl. destruct xs; discriminate.
Qed.

Lemma report_filled (p : string) (ok : jsstring -> bool) (text : string)
  (value : jsstring) :
  text <> EmptyString ->
  Forall (fun e => Validator.message e <> EmptyString) (report p ok text value).
Proof.
  intros Ht. unfold report. destruct (ok value); repeat constructor.
  exact Ht.
Qed.

Lemma validationErrors_filled (X : Externals) (b : Body) :
  Forall (fun e => Validator.message e <> EmptyString) (validationErrors X b).
Proof.
  rewrite validationErrors_reports.
  repeat (apply Forall_app; split);
    try (apply report_filled; discriminate).
  destruct (Validator.subject b); [apply report_filled; discriminate | constructor].
Qed.

Section AnyRequest.
Context (X : Externals) (env : Env) (transporter : option Transporter).
Context (outcomes : nat -> Outcome).
Context (req : Request).

(** What the page makes of every answer of the contact handler, run
    on a request as the validation chains leave it: the answer counts
    as a success exactly when two messages were handed to the
    dispatcher, and the page then shows the handler's own message;
    otherwise the page shows the messages of the violated rules
    joined by a comma, when validation failed, or one of four of its
    fixed texts. *)
Theorem route_answer_on_page :
  let errors := validationErrors X (body req) in
  let t :=
    run outcomes
      (contactHandler X env transporter outcomes
         {| ip := ip req; localTime := localTime req;
            isoTime := isoTime req; body := fst (validate X (body req)) |}
         errors) in
  exists r,
    responses t = [r]
    /\ (ok r = true <-> length (sends t) = 2%nat)
    /\ (ok r = true ->
        jsonMessage (json r)
        = Some "Your message has been sent successfully! I will get back to you soon."%string)
    /\ (ok r = false ->
        (code r = Some "VALIDATION_ERROR"%string
         /\ errors <> []
         /\ errorMessageFor (json r)
            = String.concat ", " (map Validator.message errors))
        \/ In (errorMessageFor (json r))
             [ "Your message was flagged as spam. Please revise and try again.";
               "Email service is temporarily unavailable. Please try again later.";
               "There was a problem connecting to the email service. Please try again later.";
               "Failed to send message. Please try again later." ]%string).
Proof.
  intros errors t. subst errors t.
  rewrite contactHandler_run.
  pose proof (validationErrors_filled X (body req)) as Hfilled.
  destruct (validationErrors X (body req)) as [|err errs].
  2:{ eexists. split; [reflexivity |].
      split; [split; discriminate |]. split; [discriminate |].
      intros _. left. split; [reflexivity |]. split; [discriminate |].
      inversion Hfilled as [|? ? Herr _]; subst.
      unfold errorMessageFor. cbn [code json jsonDetails option_map].
      change (bool_decide (Some "VALIDATION_ERROR"%string
                           = Some "VALIDATION_ERROR"%string)) with true.
      cbn iota.
      pose proof (concat_filled ", " (Validator.message err)
                    (map Validator.message errs) Herr) as Hc.
      cbn [map]. unfold text_or.
      destruct (String.concat ", "
                  (Validator.message err :: map Validator.message errs));
        [contradiction | reflexivity]. }
  destruct transporter as [tr|].
  2:{ eexists. split; [reflexivity |].
      split; [split; discriminate |]. split; [discriminate |].
      intros _. right. right. left. reflexivity. }
  simpl. rewrite validate_msg.
  destruct (containsSpam X _).
  { eexists. split; [reflexivity |].
    split; [split; discriminate |]. split; [discriminate |].
    intros _. right. left. reflexivity. }
  destruct (outcomes 0%nat) as [info | e].
  - destruct (outcomes 1%nat); eexists; (split; [reflexivity |]);
      (split; [split; reflexivity |]); (split; [reflexivity |]);
      discriminate.
  - destruct (contactCatch_response e) as (r & Hr & H500 & _ & _ & _ & _ & Hcode).
    rewrite Hr. exists r. split; [reflexivity |].
    unfold ok. rewrite H500.
    split; [split; discriminate |]. split; [discriminate |].
    intros _. right. unfold errorMessageFor, code in *.
    destruct (json r) as [e1 c | e1 d c | |]; simpl in Hcode;
      try (exfalso; intuition discriminate).
    + destruct Hcode as [[= <-] | [[= <-] | [[= <-] | []]]]; cbv; tauto.
    + destruct Hcode as [[= <-] | [[= <-] | [[= <-] | []]]]; cbv; tauto.
Qed.

(** What a visitor sees of the contact route as it is registered:
    whatever is submitted, the route's answer is not a success and
    the page shows its general failure text. *)
Theorem limiter_failure_on_page
  (store : gmap (list N) RateWindow) (now : Z) :
  let t := snd (App.postContact X env transporter outcomes store now req) in
  exists r,
    responses t = [r]
    /\ sends t = []
    /\ ok r = false
    /\ errorMessageFor (json r)
       = "Failed to send message. Please try again later."%string.
Proof.
  intros t. subst t. unfold App.postContact, limiter.
  assert (Hskip : skip (contactLimiter env) = Some false).
  { unfold contactLimiter. cbn [skip].
    now destruct (bool_decide (NODE_ENV env = lit "development")). }
  rewrite Hskip. eexists. split; [reflexivity |]. now repeat split.
Qed.

End AnyRequest.

End ClientFacts.
